(** * Query compiler of the job-search service

    A shallow embedding of [app/models.py], [app/query_builder.py] and the
    request handler of [app/api.py], with the properties of the query
    compiler stated and proved over it. *)

From Stdlib Require Import ZArith String Ascii List Sorted Lia.
From Stdlib Require Import Decimal DecimalString DecimalZ DecimalPos.
From stdpp Require Import base decidable countable strings gmap.
Import ListNotations.

Local Open Scope string_scope.
Local Open Scope list_scope.
Local Open Scope Z_scope.

(** Let [simpl] compute the concatenation of strings. *)
#[local] Arguments String.append !_ _ : simpl nomatch.

(** ** Data model ([app/models.py]) *)

Module Models.

(** [class FieldType(str, Enum)] *)
Inductive FieldType : Type :=
| TECHNOLOGY
| JOB_FUNCTION
| ORGANIZATION.

#[export] Instance FieldType_eq_dec : EqDecision FieldType.
Proof. solve_decision. Defined.

Definition FieldType_to_nat (f : FieldType) : nat :=
  match f with
  | TECHNOLOGY => 0%nat
  | JOB_FUNCTION => 1%nat
  | ORGANIZATION => 2%nat
  end.

Definition FieldType_of_nat (n : nat) : option FieldType :=
  match n with
  | 0%nat => Some TECHNOLOGY
  | 1%nat => Some JOB_FUNCTION
  | 2%nat => Some ORGANIZATION
  | _ => None
  end.

#[export] Instance FieldType_countable : Countable FieldType.
Proof.
  refine (inj_countable FieldType_to_nat FieldType_of_nat _).
  intros []; reflexivity.
Defined.

(** [class Condition(BaseModel)] *)
Record Condition : Type := mkCondition {
  field : FieldType;
  value : string
}.

(** [class LogicalOperator(str, Enum)] *)
Inductive LogicalOperator : Type :=
| AND
| OR
| NOT.

#[export] Instance LogicalOperator_eq_dec : EqDecision LogicalOperator.
Proof. solve_decision. Defined.

(** [class QueryNode(BaseModel)]: the tag is a string, the three other
    attributes are [Optional]; [None] is Python's [None]. *)
#[local] Unset Elimination Schemes.
Inductive QueryNode : Type := mkQueryNode {
  type : string;
  operator : option LogicalOperator;
  condition : option Condition;
  children : option (list QueryNode)
}.
#[local] Set Elimination Schemes.

End Models.
Export Models.

(** ** Python values the compiler relies on *)

Module Py.

(** The exceptions the compiler and the handler can meet. *)
Inductive exn : Type :=
| ValueError (msg : string)
| AttributeError (msg : string)
| TypeError (msg : string)
| IndexError (msg : string)
| OtherError (msg : string).

(** A computation either returns or raises. *)
Inductive result (A : Type) : Type :=
| Return (a : A)
| Raise (e : exn).
Arguments Return {A} a.
Arguments Raise {A} e.

#[export] Instance result_ret : MRet result := fun A a => Return a.

#[export] Instance result_bind : MBind result := fun A B k m =>
  match m with
  | Return a => k a
  | Raise e => Raise e
  end.

(** [str(n)] for an [int]. *)
Definition str (n : Z) : string := NilZero.string_of_int (Z.to_int n).

(** [sep.join(parts)] *)
Definition join (sep : string) (parts : list string) : string :=
  String.concat sep parts.

End Py.
Export Py.

(** ** The query builder ([app/query_builder.py]) *)

Module QueryBuilder.

(** What [_build_where_clause] returns: [(clause, params, next_offset)]. *)
Definition compiled : Type := (string * list string * Z)%type.

(** The loop of [_collect_required_fields]:
    [for child in node.children: fields.update(self._collect_required_fields(child))]. *)
Definition collect_children (self_collect : QueryNode -> result (gset FieldType))
  : list QueryNode -> gset FieldType -> result (gset FieldType) :=
  fix loop (cs : list QueryNode) (fields : gset FieldType) :=
    match cs with
    | [] => Return fields
    | child :: rest =>
      sub ← self_collect child;
      loop rest (fields ∪ sub)
    end.

(** [_collect_required_fields]. [node.children] is falsy when it is [None]
    or the empty list. *)
Fixpoint _collect_required_fields (node : QueryNode) : result (gset FieldType) :=
  if (type node =? "condition")%string then
    match condition node with
    | Some c => Return ({[ field c ]} : gset FieldType)
    | None => Raise (AttributeError "'NoneType' object has no attribute 'field'")
    end
  else if (type node =? "operator")%string then
    match children node with
    | Some ((_ :: _) as cs) => collect_children _collect_required_fields cs ∅
    | Some [] | None => Return ∅
    end
  else Return ∅.

Definition select_clause : string := "SELECT DISTINCT jp.id, jp.datetime_pulled".
Definition from_clause : string := "FROM job_posts jp".
Definition organization_join : string :=
  "INNER JOIN organizations o ON jp.organization_id = o.id".
Definition technology_join_1 : string :=
  "INNER JOIN job_posts_tech jpt ON jp.id = jpt.job_post_id".
Definition technology_join_2 : string :=
  "INNER JOIN tech t ON jpt.tech_id = t.id".
Definition job_function_join_1 : string :=
  "INNER JOIN job_posts_job_functions jpjf ON jp.id = jpjf.job_post_id".
Definition job_function_join_2 : string :=
  "INNER JOIN job_functions jf ON jpjf.job_function_id = jf.id".

(** The list [query_parts] at the end of [_build_base_query]. *)
Definition query_parts (required_fields : gset FieldType) : list string :=
  let query_parts := [select_clause; from_clause] in
  let query_parts :=
    if decide (ORGANIZATION ∈ required_fields)
    then query_parts ++ [organization_join] else query_parts in
  let query_parts :=
    if decide (TECHNOLOGY ∈ required_fields)
    then (query_parts ++ [technology_join_1]) ++ [technology_join_2]
    else query_parts in
  let query_parts :=
    if decide (JOB_FUNCTION ∈ required_fields)
    then (query_parts ++ [job_function_join_1]) ++ [job_function_join_2]
    else query_parts in
  query_parts.

(** [_build_base_query] *)
Definition _build_base_query (required_fields : gset FieldType) : string :=
  join " " (query_parts required_fields).

(** The dictionary [field_mapping] of [_build_condition]; it has an entry
    for each member of [FieldType]. *)
Definition field_mapping (f : FieldType) : string :=
  match f with
  | TECHNOLOGY => "t.name"
  | JOB_FUNCTION => "jf.name"
  | ORGANIZATION => "o.name"
  end.

(** [_build_condition]; its argument is [node.condition], which may be
    [None]. *)
Definition _build_condition (condition : option Condition) (param_offset : Z)
  : result compiled :=
  match condition with
  | None => Raise (AttributeError "'NoneType' object has no attribute 'field'")
  | Some condition =>
    let column := field_mapping (field condition) in
    Return (column +:+ " ILIKE $" +:+ str (param_offset + 1),
            ["%" +:+ value condition +:+ "%"],
            param_offset + 1)
  end.

(** The loop of [_build_operator] for AND and OR, on the three locals
    [clauses], [all_params] and [current_offset]. *)
Definition build_children (self_build : QueryNode -> Z -> result compiled)
  : list QueryNode -> list string -> list string -> Z
    -> result (list string * list string * Z) :=
  fix loop (cs : list QueryNode) (clauses all_params : list string)
           (current_offset : Z) :=
    match cs with
    | [] => Return (clauses, all_params, current_offset)
    | child :: rest =>
      '(sub_clause, params, current_offset) ← self_build child current_offset;
      loop rest (clauses ++ ["(" +:+ sub_clause +:+ ")"])
           (all_params ++ params) current_offset
    end.

(** The body of [_build_operator], with the recursive call to
    [self._build_where_clause] as a parameter. *)
Definition build_operator_body (self_build : QueryNode -> Z -> result compiled)
  (node : QueryNode) (param_offset : Z) : result compiled :=
  if decide (operator node = Some NOT) then
    match children node with
    | None => Raise (TypeError "'NoneType' object is not subscriptable")
    | Some [] => Raise (IndexError "list index out of range")
    | Some (first :: _) =>
      '(sub_clause, params, next_offset) ← self_build first param_offset;
      Return ("NOT (" +:+ sub_clause +:+ ")", params, next_offset)
    end
  else
    match children node with
    | None => Raise (TypeError "'NoneType' object is not iterable")
    | Some cs =>
      '(clauses, all_params, current_offset) ←
        build_children self_build cs [] [] param_offset;
      let operator :=
        if decide (operator node = Some AND) then " AND " else " OR " in
      Return (join operator clauses, all_params, current_offset)
    end.

(** [_build_where_clause] *)
Fixpoint _build_where_clause (node : QueryNode) (param_offset : Z) {struct node}
  : result compiled :=
  if (type node =? "condition")%string then
    _build_condition (condition node) param_offset
  else if (type node =? "operator")%string then
    build_operator_body _build_where_clause node param_offset
  else Raise (ValueError ("Unknown node type: " +:+ type node)).

(** [_build_operator] *)
Definition _build_operator : QueryNode -> Z -> result compiled :=
  build_operator_body _build_where_clause.

(** [build_query]; [_build_where_clause] is called with its default
    [param_offset = 0]. *)
Definition build_query (node : QueryNode) (limit : Z)
  : result (string * list string) :=
  required_joins ← _collect_required_fields node;
  let base_query := _build_base_query required_joins in
  '(where_clause, params, _) ← _build_where_clause node 0;
  let query :=
    base_query +:+ " WHERE " +:+ where_clause +:+ " LIMIT " +:+ str limit in
  Return (query, params).

End QueryBuilder.
Export QueryBuilder.

(** ** The request handler ([app/api.py]) *)

Module Api.

(** What the handler answers: the success document, or an [HTTPException]
    with its status code and detail. *)
Inductive response (row : Type) : Type :=
| Success (count : nat) (jobs : list row)
| HTTPException (status_code : Z) (detail : string).
Arguments Success {row} count jobs.
Arguments HTTPException {row} status_code detail.

Section Handler.

(** The rows of the database and [db.execute_query], which are outside the
    compiler: the executor returns rows or raises. *)
Variable row : Type.
Variable execute_query : string -> list string -> result (list row).

(** [search_jobs]: the response, together with the statements handed to the
    executor on the way (none, or one with its arguments). *)
Definition search_jobs (query : QueryNode) (limit : Z)
  : list (string * list string) * response row :=
  match build_query query limit with
  | Return (sql_query, params) =>
    ([(sql_query, params)],
     match execute_query sql_query params with
     | Return jobs => Success (length jobs) jobs
     | Raise (ValueError msg) => HTTPException 400 msg
     | Raise _ => HTTPException 500 "Internal server error"
     end)
  | Raise (ValueError msg) => ([], HTTPException 400 msg)
  | Raise _ => ([], HTTPException 500 "Internal server error")
  end.

End Handler.

End Api.
Export Api.

(** ** Trees as the requests of the test suite build them *)

Definition condition_node (f : FieldType) (v : string) : QueryNode :=
  mkQueryNode "condition" None (Some (mkCondition f v)) None.

Definition operator_node (o : LogicalOperator) (cs : list QueryNode) : QueryNode :=
  mkQueryNode "operator" (Some o) None (Some cs).

(** ** Well-formed trees and what the properties speak about *)

(** The invariant of the data model: a condition node carries a condition;
    an operator node carries an operator and children, exactly one under
    NOT and one or more under AND and OR, all of them well-formed. *)
Fixpoint well_formed (node : QueryNode) : bool :=
  if (type node =? "condition")%string then
    match condition node with Some _ => true | None => false end
  else if (type node =? "operator")%string then
    match operator node, children node with
    | Some NOT, Some [child] => well_formed child
    | Some NOT, _ => false
    | Some _, Some ((_ :: _) as cs) => forallb well_formed cs
    | _, _ => false
    end
  else false.

(** A field is referenced by a tree when some condition node of the tree,
    at any depth below operator nodes, carries it. *)
Inductive references : QueryNode -> FieldType -> Prop :=
| references_condition node c :
    type node = "condition" -> condition node = Some c ->
    references node (field c)
| references_child node cs child f :
    type node = "operator" -> children node = Some cs ->
    In child cs -> references child f ->
    references node f.

(** *** Placeholders of a predicate text *)

Definition is_digit (c : ascii) : bool :=
  ((48 <=? nat_of_ascii c) && (nat_of_ascii c <=? 57))%nat.

(** The longest prefix of decimal digits. *)
Fixpoint digits_prefix (s : string) : string :=
  match s with
  | EmptyString => EmptyString
  | String c s' => if is_digit c then String c (digits_prefix s') else EmptyString
  end.

(** The number written by a string of digits, if it is not empty. *)
Definition ordinal_of_digits (s : string) : option Z :=
  match NilZero.uint_of_string s with
  | Some d => Some (Z.of_uint d)
  | None => None
  end.

(** The ordinals of the placeholders [$n] of a text, from left to right. *)
Fixpoint placeholders (s : string) : list Z :=
  match s with
  | EmptyString => []
  | String c s' =>
    if Ascii.eqb c "$" then
      match ordinal_of_digits (digits_prefix s') with
      | Some n => n :: placeholders s'
      | None => placeholders s'
      end
    else placeholders s'
  end.

(** [[k+1; ...; k+n]] *)
Definition ordinals (k : Z) (n : nat) : list Z :=
  map (fun i => k + Z.of_nat i) (seq 1 n).

(** How often, and where first, a clause occurs in a statement. *)
Fixpoint occurrences (pat s : string) : nat :=
  match s with
  | EmptyString => if String.prefix pat EmptyString then 1%nat else 0%nat
  | String _ s' =>
    ((if String.prefix pat s then 1 else 0) + occurrences pat s')%nat
  end.

Definition position (pat s : string) : option nat := String.index 0 pat s.

(** *** Shapes and auxiliary notions of the proofs *)

(** The shapes of a well-formed tree. *)
Inductive shape (node : QueryNode) : Prop :=
| shape_condition c :
    type node = "condition" -> condition node = Some c -> shape node
| shape_not child :
    type node = "operator" -> operator node = Some NOT ->
    children node = Some [child] -> well_formed child = true -> shape node
| shape_and_or o c cs :
    type node = "operator" -> operator node = Some o -> o <> NOT ->
    children node = Some (c :: cs) ->
    Forall (fun child => well_formed child = true) (c :: cs) -> shape node.

(** A text that does not start with a digit (or is empty) ends any numeral
    written before it. *)
Definition ends_numeral (s : string) : bool :=
  match s with
  | EmptyString => true
  | String c _ => negb (is_digit c)
  end.

(** The text a child contributes to an AND or OR. *)
Definition parenthesized (out : string * list string) : string :=
  "(" +:+ out.1 +:+ ")".

(** [compiled_in_order cs k outs k']: compiling the nodes [cs] one after the
    other from left to right, the first one at offset [k] and each next one
    at the offset the previous one returned, gives the predicates and
    parameter lists [outs] and ends at offset [k']. *)
Inductive compiled_in_order
  : list QueryNode -> Z -> list (string * list string) -> Z -> Prop :=
| in_order_nil k : compiled_in_order [] k [] k
| in_order_cons child rest k s ps k1 outs k2 :
    _build_where_clause child k = Return (s, ps, k1) ->
    compiled_in_order rest k1 outs k2 ->
    compiled_in_order (child :: rest) k ((s, ps) :: outs) k2.

(** The keyword an AND or OR node joins its children with; a node without
    an operator is joined as OR is. *)
Definition separator (o : option LogicalOperator) : string :=
  if decide (o = Some AND) then " AND " else " OR ".

(** What is to hold of a compiled predicate: the next offset counts the
    parameters, the text does not start with a digit and, from an offset
    that is not negative, the placeholders are numbered after the offset. *)
Definition numbered_from (k : Z) (out : compiled) : Prop :=
  let '(s, ps, k') := out in
  k' = k + Z.of_nat (length ps) /\
  ends_numeral s = true /\
  (0 <= k -> placeholders s = ordinals k (length ps)).

(** Either the collector returns the referenced fields, or it raises and
    the tree is not well-formed. *)
Definition collects (node : QueryNode) : Prop :=
  match _collect_required_fields node with
  | Return fs => forall f, f ∈ fs <-> references node f
  | Raise _ => well_formed node = false
  end.

(** *** Joins of the base statement *)

(** The join clauses of a field, and the order of the fields in the base
    statement. *)
Definition field_joins (f : FieldType) : list string :=
  match f with
  | ORGANIZATION => [organization_join]
  | TECHNOLOGY => [technology_join_1; technology_join_2]
  | JOB_FUNCTION => [job_function_join_1; job_function_join_2]
  end.

Definition join_order : list FieldType := [ORGANIZATION; TECHNOLOGY; JOB_FUNCTION].

(** *** Malformed trees *)

(** [occurs_in sub node]: [sub] is [node] or a node below it, through the
    children of operator nodes. *)
Inductive occurs_in (sub : QueryNode) : QueryNode -> Prop :=
| occurs_here : occurs_in sub sub
| occurs_below node cs child :
    type node = "operator" -> children node = Some cs ->
    In child cs -> occurs_in sub child ->
    occurs_in sub node.

(** The number of children of a node; a node without a list has none. *)
Definition child_count (node : QueryNode) : nat :=
  match children node with
  | Some cs => length cs
  | None => 0
  end.

(** An operator node that breaks the arity invariant: NOT without exactly
    one child, AND or OR without any. *)
Definition arity_violation (node : QueryNode) : bool :=
  (type node =? "operator")%string &&
  match operator node with
  | Some NOT => negb (child_count node =? 1)%nat
  | Some _ => (child_count node =? 0)%nat
  | None => false
  end.

(** *** Requests used as examples *)

Definition apple_query : QueryNode := condition_node ORGANIZATION "apple".

Definition apple_and_dotnet : QueryNode :=
  operator_node AND
    [condition_node ORGANIZATION "apple"; condition_node TECHNOLOGY ".net"].

Definition not_google_or_apple_and_data : QueryNode :=
  operator_node AND
    [operator_node NOT
       [operator_node OR
          [condition_node ORGANIZATION "google";
           condition_node ORGANIZATION "apple"]];
     condition_node JOB_FUNCTION "data"].

Definition not_technology_and_not_organization : QueryNode :=
  operator_node AND
    [operator_node NOT [condition_node TECHNOLOGY "python"];
     operator_node NOT [condition_node ORGANIZATION "google"]].

Definition not_with_two_children : QueryNode :=
  operator_node NOT
    [condition_node TECHNOLOGY "python"; condition_node ORGANIZATION "google"].

(** *** Further notions: what is compiled, values, parentheses *)

(** The conditions the predicate compiler visits, from left to right: the
    condition of a condition node, the conditions of the first child under
    NOT, those of all the children under the other operators. *)
Fixpoint compiled_conditions (node : QueryNode) : list Condition :=
  if (type node =? "condition")%string then
    match condition node with Some c => [c] | None => [] end
  else if (type node =? "operator")%string then
    match children node with
    | Some cs =>
      if decide (operator node = Some NOT) then
        match cs with
        | first :: _ => compiled_conditions first
        | [] => []
        end
      else flat_map compiled_conditions cs
    | None => []
    end
  else [].

(** The parameter a condition is bound to. *)
Definition wrapped (c : Condition) : string := "%" +:+ value c +:+ "%".

(** The same tree with every value rewritten by [g]. *)
Fixpoint map_values (g : string -> string) (node : QueryNode) : QueryNode :=
  mkQueryNode (type node) (operator node)
    (match condition node with
     | Some c => Some (mkCondition (field c) (g (value c)))
     | None => None
     end)
    (match children node with
     | Some cs => Some (map (map_values g) cs)
     | None => None
     end).

(** What a computation returns, seen through [g]; what it raises is kept. *)
Definition returned {A B : Type} (g : A -> B) (m : result A) : result B :=
  match m with
  | Return a => Return (g a)
  | Raise e => Raise e
  end.

(** The depth of open parentheses after a text read from depth [d];
    [None] when a parenthesis is closed that was not opened. *)
Fixpoint paren_depth (s : string) (d : nat) : option nat :=
  match s with
  | EmptyString => Some d
  | String c s' =>
    if Ascii.eqb c "(" then paren_depth s' (S d)
    else if Ascii.eqb c ")" then
      match d with
      | O => None
      | S d' => paren_depth s' d'
      end
    else paren_depth s' d
  end.

(** A condition node that has no condition. *)
Definition lacks_condition (node : QueryNode) : Prop :=
  type node = "condition" /\ condition node = None.

(** Compiled at another offset, a tree gives the same parameters, consumes
    as many offsets, and raises what it raised. *)
Definition shifts (node : QueryNode) : Prop :=
  forall k j,
  match _build_where_clause node k with
  | Return (_, ps, k') =>
    exists s', _build_where_clause node j = Return (s', ps, j + (k' - k))
  | Raise e => _build_where_clause node j = Raise e
  end.

(** The predicate and the next offset, without the parameters. *)
Definition text_and_offset {A : Type} (out : A * list string * Z) : A * Z :=
  (out.1.1, out.2).

(** ** Reasoning principles *)

(** Induction on trees, with the hypothesis on every child. *)
Lemma QueryNode_ind (P : QueryNode -> Prop) :
  (forall ty op cond, P (mkQueryNode ty op cond None)) ->
  (forall ty op cond cs, Forall P cs -> P (mkQueryNode ty op cond (Some cs))) ->
  forall node, P node.
Proof.
  intros Hnone Hsome.
  fix IH 1.
  intros [ty op cond [cs|]]; [|apply Hnone].
  apply Hsome.
  induction cs as [|c cs IHcs]; constructor; [apply IH | exact IHcs].
Qed.

Lemma build_where_clause_unfold node k :
  _build_where_clause node k =
  if (type node =? "condition")%string then
    _build_condition (condition node) k
  else if (type node =? "operator")%string then
    _build_operator node k
  else Raise (ValueError ("Unknown node type: " +:+ type node)).
Proof. destruct node; reflexivity. Qed.

Lemma collect_required_fields_unfold node :
  _collect_required_fields node =
  if (type node =? "condition")%string then
    match condition node with
    | Some c => Return ({[ field c ]} : gset FieldType)
    | None => Raise (AttributeError "'NoneType' object has no attribute 'field'")
    end
  else if (type node =? "operator")%string then
    match children node with
    | Some ((_ :: _) as cs) => collect_children _collect_required_fields cs ∅
    | Some [] | None => Return ∅
    end
  else Return ∅.
Proof. destruct node; reflexivity. Qed.

Lemma well_formed_unfold node :
  well_formed node =
  if (type node =? "condition")%string then
    match condition node with Some _ => true | None => false end
  else if (type node =? "operator")%string then
    match operator node, children node with
    | Some NOT, Some [child] => well_formed child
    | Some NOT, _ => false
    | Some _, Some ((_ :: _) as cs) => forallb well_formed cs
    | _, _ => false
    end
  else false.
Proof. destruct node; reflexivity. Qed.

Lemma well_formed_shape node : well_formed node = true -> shape node.
Proof.
  rewrite well_formed_unfold.
  destruct (type node =? "condition")%string eqn:Hc.
  - apply String.eqb_eq in Hc.
    destruct (condition node) as [c|] eqn:Hcond; [|discriminate].
    intros _. by eapply shape_condition.
  - destruct (type node =? "operator")%string eqn:Ho; [|discriminate].
    apply String.eqb_eq in Ho.
    destruct (operator node) as [[| |]|] eqn:Hop;
      destruct (children node) as [[|c cs]|] eqn:Hch; try discriminate.
    + intros H. apply (shape_and_or node AND c cs Ho Hop); [discriminate|done|].
      apply Forall_forall. intros x Hx. apply list_elem_of_In in Hx.
      revert x Hx. by apply forallb_forall.
    + intros H. apply (shape_and_or node OR c cs Ho Hop); [discriminate|done|].
      apply Forall_forall. intros x Hx. apply list_elem_of_In in Hx.
      revert x Hx. by apply forallb_forall.
    + destruct cs; [|discriminate]. intros H. by eapply shape_not.
Qed.

(** ** Decimal numerals and the scanner *)

Section Scanner.

Lemma str_nonneg (n : Z) :
  0 <= n ->
  exists d, d <> Nil /\ str n = NilEmpty.string_of_uint d /\ Z.of_uint d = n.
Proof.
  intros Hn. unfold str.
  destruct n as [|p|p]; [| |lia].
  - exists (D0 Nil). repeat split; discriminate.
  - exists (Pos.to_uint p).
    pose proof (DecimalPos.Unsigned.to_uint_nonnil p) as Hnil.
    repeat split; [exact Hnil | |].
    { simpl. destruct (Pos.to_uint p); [by destruct Hnil | reflexivity..]. }
    change (Z.of_int (Z.to_int (Z.pos p)) = Z.pos p). apply DecimalZ.of_to.
Qed.

Lemma digits_prefix_numeral (d : uint) (rest : string) :
  ends_numeral rest = true ->
  digits_prefix (NilEmpty.string_of_uint d +:+ rest) = NilEmpty.string_of_uint d.
Proof.
  intros Hrest.
  induction d; simpl; try (f_equal; exact IHd).
  destruct rest as [|c rest]; [reflexivity|].
  simpl in *. by destruct (is_digit c).
Qed.

Lemma placeholders_numeral (d : uint) :
  placeholders (NilEmpty.string_of_uint d) = [].
Proof. induction d; simpl; auto. Qed.

Lemma ordinal_of_numeral (d : uint) :
  d <> Nil -> ordinal_of_digits (NilEmpty.string_of_uint d) = Some (Z.of_uint d).
Proof.
  intros Hd. unfold ordinal_of_digits.
  replace (NilEmpty.string_of_uint d) with (NilZero.string_of_uint d)
    by (by destruct d).
  by rewrite NilZero.usu.
Qed.

Lemma append_empty_r (s : string) : s +:+ "" = s.
Proof. induction s; simpl; congruence. Qed.

Lemma append_assoc (a b c : string) : (a +:+ b) +:+ c = a +:+ b +:+ c.
Proof. induction a; simpl; congruence. Qed.

(** The placeholder written by the compiler: [$] followed by [str n]. *)
Lemma placeholders_dollar (n : Z) (rest : string) :
  0 <= n -> ends_numeral rest = true ->
  placeholders ("$" +:+ str n +:+ rest) = n :: placeholders rest.
Proof.
  intros Hn Hrest.
  destruct (str_nonneg n Hn) as (d & Hd & -> & <-).
  simpl. rewrite (digits_prefix_numeral d rest Hrest), (ordinal_of_numeral d Hd).
  f_equal. clear Hd Hn.
  induction d; simpl; auto.
Qed.

Lemma digits_prefix_app (a b : string) :
  ends_numeral b = true -> a <> "" ->
  digits_prefix (a +:+ b) = digits_prefix a.
Proof.
  intros Hb. induction a as [|c a IH]; [done|]. intros _. simpl.
  destruct (is_digit c); [|reflexivity]. f_equal.
  destruct a as [|c' a]; [|by apply IH].
  simpl. destruct b as [|c' b]; [reflexivity|].
  simpl in *. by destruct (is_digit c').
Qed.

Lemma digits_prefix_app' (a b : string) :
  ends_numeral b = true ->
  digits_prefix (a +:+ b) = digits_prefix a.
Proof.
  intros Hb. destruct a as [|c a].
  - simpl. destruct b as [|c' b]; [reflexivity|].
    simpl in *. by destruct (is_digit c').
  - by apply digits_prefix_app.
Qed.

(** Scanning a concatenation, when the right part cannot continue a numeral
    of the left one. *)
Lemma placeholders_app (a b : string) :
  ends_numeral b = true ->
  placeholders (a +:+ b) = placeholders a ++ placeholders b.
Proof.
  intros Hb. induction a as [|c a IH]; [reflexivity|].
  simpl. rewrite IH, (digits_prefix_app' a b Hb).
  destruct (Ascii.eqb c "$"); [|reflexivity].
  by destruct (ordinal_of_digits (digits_prefix a)).
Qed.

Lemma ends_numeral_app (a b : string) :
  ends_numeral a = true -> ends_numeral b = true -> ends_numeral (a +:+ b) = true.
Proof. destruct a; simpl; auto. Qed.

Lemma ordinals_app (k : Z) (n m : nat) :
  ordinals k (n + m) = ordinals k n ++ ordinals (k + Z.of_nat n) m.
Proof.
  unfold ordinals. rewrite seq_app, map_app. f_equal.
  generalize 1%nat as a. induction m as [|m IH]; intros a; simpl; [reflexivity|].
  f_equal; [lia|]. apply (IH (S a)).
Qed.

End Scanner.

(** ** The predicate compiler, case by case *)

Section Compiler.

Lemma build_condition_node node c k :
  type node = "condition" -> condition node = Some c ->
  _build_where_clause node k =
  Return (field_mapping (field c) +:+ " ILIKE $" +:+ str (k + 1),
          ["%" +:+ value c +:+ "%"], k + 1).
Proof.
  intros Hty Hc. by rewrite build_where_clause_unfold, Hty, Hc.
Qed.

Lemma build_operator_node node k :
  type node = "operator" ->
  _build_where_clause node k = _build_operator node k.
Proof. intros Hty. by rewrite build_where_clause_unfold, Hty. Qed.

Lemma build_not_node node first rest k :
  type node = "operator" -> operator node = Some NOT ->
  children node = Some (first :: rest) ->
  _build_where_clause node k =
  match _build_where_clause first k with
  | Return (sub_clause, params, next_offset) =>
    Return ("NOT (" +:+ sub_clause +:+ ")", params, next_offset)
  | Raise e => Raise e
  end.
Proof.
  intros Hty Hop Hch. rewrite (build_operator_node _ _ Hty).
  unfold _build_operator, build_operator_body. rewrite Hop, Hch.
  rewrite decide_True by reflexivity.
  by destruct (_build_where_clause first k) as [[[? ?] ?]|].
Qed.

Lemma build_and_or_node node cs k :
  type node = "operator" -> operator node <> Some NOT ->
  children node = Some cs ->
  _build_where_clause node k =
  match build_children _build_where_clause cs [] [] k with
  | Return (clauses, all_params, current_offset) =>
    Return (join (separator (operator node)) clauses, all_params, current_offset)
  | Raise e => Raise e
  end.
Proof.
  intros Hty Hop Hch. rewrite (build_operator_node _ _ Hty).
  unfold _build_operator, build_operator_body. rewrite Hch.
  rewrite decide_False by exact Hop.
  by destruct (build_children _ cs [] [] k) as [[[? ?] ?]|].
Qed.

(** The loop appends, to what it was given, what the children give. *)
Lemma build_children_in_order cs :
  forall k outs k' clauses all_params,
  compiled_in_order cs k outs k' ->
  build_children _build_where_clause cs clauses all_params k =
  Return (clauses ++ map parenthesized outs,
          all_params ++ concat (map snd outs), k').
Proof.
  induction cs as [|c cs IH]; intros k outs k' clauses all_params H;
    inversion H; subst; simpl.
  - by rewrite !app_nil_r.
  - match goal with Hc : _build_where_clause c k = _ |- _ => rewrite Hc end.
    simpl. erewrite IH by eassumption.
    by rewrite <- !app_assoc.
Qed.

Lemma build_children_inv cs :
  forall k clauses all_params clauses' all_params' k',
  build_children _build_where_clause cs clauses all_params k =
    Return (clauses', all_params', k') ->
  exists outs,
    compiled_in_order cs k outs k' /\
    clauses' = clauses ++ map parenthesized outs /\
    all_params' = all_params ++ concat (map snd outs).
Proof.
  induction cs as [|c cs IH]; intros k clauses all_params clauses' all_params' k';
    simpl.
  - intros [= <- <- <-]. exists []. split; [constructor|].
    by rewrite !app_nil_r.
  - destruct (_build_where_clause c k) as [[[s ps] k1]|] eqn:Hc; [|discriminate].
    simpl. intros H. apply IH in H as (outs & Hin & -> & ->).
    exists ((s, ps) :: outs). split; [by econstructor|].
    by rewrite <- !app_assoc.
Qed.

Lemma compiled_in_order_total cs :
  Forall (fun c => forall k, exists s ps k',
            _build_where_clause c k = Return (s, ps, k')) cs ->
  forall k, exists outs k', compiled_in_order cs k outs k'.
Proof.
  induction 1 as [|c cs Hc _ IH]; intros k.
  - exists [], k. constructor.
  - destruct (Hc k) as (s & ps & k1 & Hs).
    destruct (IH k1) as (outs & k2 & Houts).
    exists ((s, ps) :: outs), k2. by econstructor.
Qed.

(** Every well-formed tree compiles, at every offset. *)
Lemma build_where_clause_total node :
  well_formed node = true ->
  forall k, exists s ps k', _build_where_clause node k = Return (s, ps, k').
Proof.
  induction node as [ty op cond|ty op cond cs IH] using QueryNode_ind;
    intros Hwf k; destruct (well_formed_shape _ Hwf)
      as [c Hty Hc|child Hty Hop Hch Hchild|o c' cs' Hty Hop Hnot Hch Hall];
    try discriminate Hch.
  - rewrite (build_condition_node _ c k) by done. eauto.
  - rewrite (build_condition_node _ c k) by done. eauto.
  - injection Hch as ->.
    rewrite (build_not_node _ child [] k) by done.
    apply Forall_cons in IH as [IHc _].
    destruct (IHc Hchild k) as (s & ps & k' & ->). eauto.
  - injection Hch as ->.
    rewrite (build_and_or_node _ (c' :: cs') k); [|done|rewrite Hop; congruence|done].
    destruct (compiled_in_order_total (c' :: cs')) with (k := k)
      as (outs & k' & Houts).
    { apply Forall_forall. intros x Hx.
      apply (proj1 (Forall_forall _ _) IH x Hx).
      apply (proj1 (Forall_forall _ _) Hall x Hx). }
    rewrite (build_children_in_order _ _ _ _ [] [] Houts). eauto.
Qed.

(** *** Placeholders of the emitted predicate *)

Lemma placeholders_condition f n :
  0 <= n -> placeholders (field_mapping f +:+ " ILIKE $" +:+ str n) = [n].
Proof.
  intros Hn.
  assert (placeholders ("$" +:+ str n) = [n]) as Hd.
  { rewrite <- (append_empty_r (str n)). by apply placeholders_dollar. }
  destruct f; simpl field_mapping.
  - change (placeholders (("t.name ILIKE " +:+ "$") +:+ str n) = [n]).
    rewrite append_assoc, placeholders_app; [by rewrite Hd|done].
  - change (placeholders (("jf.name ILIKE " +:+ "$") +:+ str n) = [n]).
    rewrite append_assoc, placeholders_app; [by rewrite Hd|done].
  - change (placeholders (("o.name ILIKE " +:+ "$") +:+ str n) = [n]).
    rewrite append_assoc, placeholders_app; [by rewrite Hd|done].
Qed.

Lemma placeholders_parenthesized out :
  ends_numeral out.1 = true ->
  placeholders (parenthesized out) = placeholders out.1.
Proof.
  intros _. unfold parenthesized.
  change (placeholders (out.1 +:+ ")") = placeholders out.1).
  rewrite placeholders_app by done. apply app_nil_r.
Qed.

Lemma ends_numeral_join sep outs :
  ends_numeral (join sep (map parenthesized outs)) = true.
Proof. by destruct outs as [|o [|o' outs]]. Qed.

Lemma placeholders_join sep outs :
  placeholders sep = [] -> ends_numeral sep = true -> sep <> "" ->
  Forall (fun out => ends_numeral out.1 = true) outs ->
  placeholders (join sep (map parenthesized outs)) =
  concat (map (fun out => placeholders out.1) outs).
Proof.
  intros Hsep Hend Hne.
  induction 1 as [|o outs Ho _ IH]; [reflexivity|].
  destruct outs as [|o' outs].
  - simpl. rewrite app_nil_r. by apply placeholders_parenthesized.
  - change (join sep (map parenthesized (o :: o' :: outs)))
      with (parenthesized o +:+ sep +:+ join sep (map parenthesized (o' :: outs))).
    rewrite placeholders_app, placeholders_app.
    + by rewrite Hsep, IH, placeholders_parenthesized.
    + apply ends_numeral_join.
    + destruct sep; [done|exact Hend].
Qed.

Lemma compiled_in_order_numbered cs k outs k' :
  compiled_in_order cs k outs k' ->
  Forall (fun c => forall k s ps k',
            _build_where_clause c k = Return (s, ps, k') ->
            numbered_from k (s, ps, k')) cs ->
  k' = k + Z.of_nat (length (concat (map snd outs))) /\
  Forall (fun out => ends_numeral out.1 = true) outs /\
  (0 <= k ->
   concat (map (fun out => placeholders out.1) outs) =
     ordinals k (length (concat (map snd outs)))).
Proof.
  induction 1 as [k|c rest k s ps k1 outs k2 Hc _ IH]; intros Hall.
  - simpl. split; [lia|]. split; [constructor|reflexivity].
  - apply Forall_cons in Hall as [Hhead Hrest].
    destruct (Hhead k s ps k1 Hc) as (-> & Hend & Hs).
    destruct (IH Hrest) as (-> & Hends & Houts).
    simpl. rewrite length_app.
    split; [lia|]. split; [by constructor|]. intros Hk.
    rewrite ordinals_app, Hs, Houts by lia. reflexivity.
Qed.

(** Whenever a tree compiles, the placeholders of its predicate are
    numbered after the offset, one for each parameter. *)
Lemma build_where_clause_numbered node :
  forall k s ps k',
  _build_where_clause node k = Return (s, ps, k') ->
  numbered_from k (s, ps, k').
Proof.
  induction node as [ty op cond|ty op cond cs IH] using QueryNode_ind;
    intros k s ps k'; rewrite build_where_clause_unfold;
    (destruct (type _ =? "condition")%string;
     [destruct (condition _) as [c|]; [|discriminate]; simpl;
      intros [= <- <- <-]; simpl;
      split; [lia|]; split;
      [by destruct (field c)
      |intros Hk; apply placeholders_condition; lia]
     |]);
    (destruct (type _ =? "operator")%string; [|discriminate]);
    unfold _build_operator, build_operator_body;
    simpl operator; simpl children.
  - by destruct (decide (op = Some NOT)).
  - destruct (decide (op = Some NOT)) as [->|Hop].
    + destruct cs as [|first rest]; [discriminate|].
      apply Forall_cons in IH as [IHfirst _].
      destruct (_build_where_clause first k) as [[[s1 ps1] k1]|] eqn:Hfirst;
        [|discriminate].
      simpl. intros [= <- <- <-].
      destruct (IHfirst k s1 ps1 k1 Hfirst) as (-> & Hend & Hs).
      split; [reflexivity|]. split; [reflexivity|]. intros Hk.
      change (placeholders (s1 +:+ ")") = ordinals k (length ps1)).
      rewrite placeholders_app by done. rewrite Hs by done. apply app_nil_r.
    + destruct (build_children _ cs [] [] k) as [[[cl ap] k1]|] eqn:Hloop;
        [|discriminate].
      simpl. intros [= <- <- <-].
      apply build_children_inv in Hloop as (outs & Hin & -> & ->).
      destruct (compiled_in_order_numbered _ _ _ _ Hin IH)
        as (-> & Hends & Houts).
      simpl. split; [reflexivity|]. split; [apply ends_numeral_join|].
      intros Hk.
      rewrite placeholders_join; [by apply Houts|..|exact Hends];
        by destruct (decide (op = Some AND)).
Qed.

End Compiler.

(** ** The join-set collector *)

Section Collector.

Lemma collect_operator_node node cs :
  type node = "operator" -> children node = Some cs ->
  _collect_required_fields node =
  collect_children _collect_required_fields cs ∅.
Proof.
  intros Hty Hch. rewrite collect_required_fields_unfold, Hty, Hch.
  by destruct cs.
Qed.

Lemma collect_children_spec cs :
  Forall collects cs ->
  forall acc,
  match collect_children _collect_required_fields cs acc with
  | Return fs =>
    forall f, f ∈ fs <-> f ∈ acc \/ exists c, In c cs /\ references c f
  | Raise _ => exists c, In c cs /\ well_formed c = false
  end.
Proof.
  induction 1 as [|c cs Hc _ IH]; intros acc; simpl.
  - intros f. split; [auto|]. by intros [?|(c & [] & _)].
  - unfold collects in Hc.
    destruct (_collect_required_fields c) as [sub|e]; simpl.
    + specialize (IH (acc ∪ sub)).
      destruct (collect_children _ cs (acc ∪ sub)) as [fs|e'].
      * intros f. rewrite IH, elem_of_union, Hc.
        split.
        -- intros [[?|?]|(c' & ? & ?)]; eauto 6.
        -- intros [?|(c' & [<-|?] & ?)]; eauto 6.
      * destruct IH as (c' & ? & ?). exists c'. auto.
    + exists c. auto.
Qed.

Lemma references_operator node cs f :
  type node = "operator" -> children node = Some cs ->
  references node f <-> exists c, In c cs /\ references c f.
Proof.
  intros Hty Hch. split.
  - inversion 1 as [? c Hty' _|? cs' child ? _ Hch' Hin Hf]; subst.
    + rewrite Hty in Hty'. discriminate.
    + rewrite Hch in Hch'. injection Hch' as <-. eauto.
  - intros (c & Hin & Hf). by eapply references_child.
Qed.

Lemma malformed_child node cs c :
  type node = "operator" -> children node = Some cs ->
  In c cs -> well_formed c = false -> well_formed node = false.
Proof.
  intros Hty Hch Hin Hc. rewrite well_formed_unfold, Hty, Hch. simpl.
  assert (forallb well_formed cs = false) as Hall.
  { apply not_true_is_false. intros Hall.
    rewrite forallb_forall in Hall. rewrite (Hall c Hin) in Hc. discriminate. }
  destruct (operator node) as [[| |]|]; [| | |reflexivity];
    destruct cs as [|c1 cs']; try reflexivity; try exact Hall.
  destruct cs'; [|reflexivity].
  destruct Hin as [->|[]]. exact Hc.
Qed.

Lemma collects_condition node :
  type node = "condition" -> collects node.
Proof.
  intros Hty. unfold collects.
  rewrite collect_required_fields_unfold, well_formed_unfold, Hty. simpl.
  destruct (condition node) as [c|] eqn:Hc; [|reflexivity].
  intros f. rewrite elem_of_singleton. split.
  - intros ->. by apply references_condition.
  - inversion 1 as [? c' _ Hc'|? ? ? ? Hty']; subst.
    + rewrite Hc in Hc'. by injection Hc' as <-.
    + rewrite Hty in Hty'. discriminate.
Qed.

Lemma collects_unknown node :
  type node <> "condition" -> type node <> "operator" -> collects node.
Proof.
  intros Hc Ho. unfold collects. rewrite collect_required_fields_unfold.
  apply String.eqb_neq in Hc as Hc'. apply String.eqb_neq in Ho as Ho'.
  rewrite Hc', Ho'.
  intros f. split; [by intros ?%not_elem_of_empty|].
  inversion 1; subst; congruence.
Qed.

Lemma collects_no_children node :
  type node = "operator" -> children node = None -> collects node.
Proof.
  intros Hty Hch. unfold collects.
  rewrite collect_required_fields_unfold, Hty, Hch. simpl.
  intros f. split; [by intros ?%not_elem_of_empty|].
  inversion 1 as [? ? Hty'|? ? ? ? _ Hch']; subst; congruence.
Qed.

Lemma collects_operator node cs :
  type node = "operator" -> children node = Some cs ->
  Forall collects cs -> collects node.
Proof.
  intros Hty Hch Hall. unfold collects.
  rewrite (collect_operator_node node cs Hty Hch).
  pose proof (collect_children_spec cs Hall ∅) as Hloop.
  destruct (collect_children _ cs ∅) as [fs|e].
  - intros f. rewrite Hloop, (references_operator node cs f Hty Hch).
    split; [intros [[]%not_elem_of_empty|?]; done|auto].
  - destruct Hloop as (c & Hin & Hc). by eapply malformed_child.
Qed.

Lemma collect_required_fields_spec node : collects node.
Proof.
  induction node as [ty op cond|ty op cond cs IH] using QueryNode_ind.
  - destruct (String.eqb_spec ty "condition") as [Hc|Hc];
      [by apply collects_condition|].
    destruct (String.eqb_spec ty "operator") as [Ho|Ho];
      [by apply collects_no_children|by apply collects_unknown].
  - destruct (String.eqb_spec ty "condition") as [Hc|Hc];
      [by apply collects_condition|].
    destruct (String.eqb_spec ty "operator") as [Ho|Ho];
      [by apply (collects_operator _ cs)|by apply collects_unknown].
Qed.

(** On a well-formed tree the collector returns. *)
Lemma collect_required_fields_total node :
  well_formed node = true ->
  exists fs, _collect_required_fields node = Return fs /\
             forall f, f ∈ fs <-> references node f.
Proof.
  intros Hwf. pose proof (collect_required_fields_spec node) as H.
  unfold collects in H.
  destruct (_collect_required_fields node) as [fs|e]; [eauto|congruence].
Qed.

End Collector.

(** ** The compiler on the requests above *)

Example not_google_or_apple_and_data_statement :
  build_query not_google_or_apple_and_data 10 =
  Return ("SELECT DISTINCT jp.id, jp.datetime_pulled FROM job_posts jp "
          +:+ "INNER JOIN organizations o ON jp.organization_id = o.id "
          +:+ "INNER JOIN job_posts_job_functions jpjf ON jp.id = jpjf.job_post_id "
          +:+ "INNER JOIN job_functions jf ON jpjf.job_function_id = jf.id "
          +:+ "WHERE (NOT ((o.name ILIKE $1) OR (o.name ILIKE $2))) "
          +:+ "AND (jf.name ILIKE $3) LIMIT 10",
          ["%google%"; "%apple%"; "%data%"]).
Proof. by vm_compute. Qed.

Example not_google_or_apple_and_data_placeholders :
  placeholders
    "(NOT ((o.name ILIKE $1) OR (o.name ILIKE $2))) AND (jf.name ILIKE $3)"
  = [1; 2; 3].
Proof. reflexivity. Qed.

Example apple_and_dotnet_statement :
  build_query apple_and_dotnet 10 =
  Return ("SELECT DISTINCT jp.id, jp.datetime_pulled FROM job_posts jp "
          +:+ "INNER JOIN organizations o ON jp.organization_id = o.id "
          +:+ "INNER JOIN job_posts_tech jpt ON jp.id = jpt.job_post_id "
          +:+ "INNER JOIN tech t ON jpt.tech_id = t.id "
          +:+ "WHERE (o.name ILIKE $1) AND (t.name ILIKE $2) LIMIT 10",
          ["%apple%"; "%.net%"]).
Proof. by vm_compute. Qed.

Example not_with_two_children_statement :
  build_query not_with_two_children 10 =
  Return ("SELECT DISTINCT jp.id, jp.datetime_pulled FROM job_posts jp "
          +:+ "INNER JOIN organizations o ON jp.organization_id = o.id "
          +:+ "INNER JOIN job_posts_tech jpt ON jp.id = jpt.job_post_id "
          +:+ "INNER JOIN tech t ON jpt.tech_id = t.id "
          +:+ "WHERE NOT (t.name ILIKE $1) LIMIT 10",
          ["%python%"]).
Proof. by vm_compute. Qed.

Example negative_offset_text :
  _build_where_clause (condition_node TECHNOLOGY "x") (-5) =
  Return ("t.name ILIKE $-4", ["%x%"], -4).
Proof. by vm_compute. Qed.

(** ** Properties of the predicate compiler *)

(** C1. For every well-formed tree and every start offset (a count of
    parameters already bound, so not negative), the tree compiles, the
    predicate has exactly as many placeholders as the parameter list has
    entries, and read from left to right the placeholders are
    [$offset+1], [$offset+2], ...: the placeholder at (0-based) position
    [N] has ordinal [offset+N+1], wherever the parameter list has an entry
    at position [N]. *)
Theorem placeholders_follow_parameters (node : QueryNode) (k : Z) :
  well_formed node = true -> 0 <= k ->
  exists s ps k',
    _build_where_clause node k = Return (s, ps, k') /\
    length (placeholders s) = length ps /\
    placeholders s = ordinals k (length ps) /\
    (forall (N : nat) p, ps !! N = Some p ->
       placeholders s !! N = Some (k + Z.of_nat N + 1)) /\
    k' = k + Z.of_nat (length ps).
Proof.
  intros Hwf Hk.
  destruct (build_where_clause_total node Hwf k) as (s & ps & k' & Hs).
  destruct (build_where_clause_numbered node k s ps k' Hs) as (Hk' & _ & Hp).
  specialize (Hp Hk).
  exists s, ps, k'. repeat split; try assumption.
  - rewrite Hp. unfold ordinals. by rewrite length_map, length_seq.
  - intros N p HN. apply lookup_lt_Some in HN.
    rewrite Hp. unfold ordinals.
    rewrite list_lookup_fmap, lookup_seq_lt by exact HN.
    simpl. f_equal. lia.
Qed.

Lemma placeholders_follow_parameters_witness :
  well_formed not_google_or_apple_and_data = true /\ 0 <= 0 /\
  exists s ps k',
    _build_where_clause not_google_or_apple_and_data 0 = Return (s, ps, k') /\
    length (placeholders s) = length ps /\
    placeholders s = ordinals 0 (length ps) /\
    (forall (N : nat) p, ps !! N = Some p ->
       placeholders s !! N = Some (0 + Z.of_nat N + 1)) /\
    k' = 0 + Z.of_nat (length ps).
Proof.
  split; [reflexivity|]. split; [lia|].
  apply (placeholders_follow_parameters not_google_or_apple_and_data 0);
    [reflexivity|lia].
Defined.

(** C2. A condition node with field [f] and value [v], compiled at offset
    [k], gives the predicate [<column of f> ILIKE $<k+1>], the single
    parameter [%v%] and the next offset [k+1]; its join-set is [{f}]. The
    condition organization = "apple" at offset 0 gives [o.name ILIKE $1]
    with the parameters [["%apple%"]], and its base statement has the
    organization join and no other. *)
Theorem condition_compiles (node : QueryNode) (c : Condition) (k : Z) :
  type node = "condition" -> condition node = Some c ->
  _build_where_clause node k =
    Return (field_mapping (field c) +:+ " ILIKE $" +:+ str (k + 1),
            ["%" +:+ value c +:+ "%"], k + 1) /\
  _collect_required_fields node = Return {[ field c ]} /\
  _build_where_clause apple_query 0 =
    Return ("o.name ILIKE $1", ["%apple%"], 1) /\
  _collect_required_fields apple_query = Return {[ ORGANIZATION ]} /\
  query_parts {[ ORGANIZATION ]} =
    [select_clause; from_clause; organization_join] /\
  build_query apple_query 10 =
    Return ("SELECT DISTINCT jp.id, jp.datetime_pulled FROM job_posts jp "
            +:+ "INNER JOIN organizations o ON jp.organization_id = o.id "
            +:+ "WHERE o.name ILIKE $1 LIMIT 10",
            ["%apple%"]).
Proof.
  intros Hty Hc. split; [by apply build_condition_node|].
  split; [by rewrite collect_required_fields_unfold, Hty, Hc|].
  repeat split; by vm_compute.
Qed.

Lemma condition_compiles_witness :
  type (condition_node TECHNOLOGY "python") = "condition" /\
  condition (condition_node TECHNOLOGY "python") =
    Some (mkCondition TECHNOLOGY "python") /\
  _build_where_clause (condition_node TECHNOLOGY "python") 4 =
    Return ("t.name ILIKE $5", ["%python%"], 5).
Proof.
  split; [reflexivity|]. split; [reflexivity|].
  exact (proj1 (condition_compiles (condition_node TECHNOLOGY "python")
                  (mkCondition TECHNOLOGY "python") 4 eq_refl eq_refl)).
Defined.

(** C3. An AND or OR node compiles its children from left to right, each
    at the offset the previous one returned; the predicate is the
    children's predicates, each in parentheses, joined by [" AND "] or
    [" OR "], and the parameter list is the children's lists concatenated
    in the same order. The AND of organization = "apple" and
    technology = ".net" gives [(o.name ILIKE $1) AND (t.name ILIKE $2)]
    with the parameters [%apple%] and [%.net%] in that order. *)
Theorem and_or_compiles (node : QueryNode) (o : LogicalOperator)
    (cs : list QueryNode) (k : Z) :
  type node = "operator" -> operator node = Some o -> o <> NOT ->
  children node = Some cs -> cs <> [] ->
  Forall (fun child => well_formed child = true) cs ->
  (exists outs k',
     compiled_in_order cs k outs k' /\
     length outs = length cs /\
     _build_where_clause node k =
       Return (join (match o with AND => " AND " | _ => " OR " end)
                    (map (fun out => "(" +:+ out.1 +:+ ")") outs),
               concat (map snd outs), k')) /\
  _build_where_clause apple_and_dotnet 0 =
    Return ("(o.name ILIKE $1) AND (t.name ILIKE $2)",
            ["%apple%"; "%.net%"], 2).
Proof.
  intros Hty Hop Hnot Hch _ Hall. split; [|by vm_compute].
  destruct (compiled_in_order_total cs) with (k := k) as (outs & k' & Houts).
  { eapply Forall_impl; [exact Hall|].
    intros c Hc. by apply build_where_clause_total. }
  exists outs, k'. split; [exact Houts|]. split.
  { clear -Houts. induction Houts; simpl; congruence. }
  rewrite (build_and_or_node node cs k Hty); [|rewrite Hop; congruence|exact Hch].
  rewrite (build_children_in_order _ _ _ _ [] [] Houts). simpl.
  rewrite Hop. unfold separator.
  by destruct o; [rewrite decide_True| rewrite decide_False|].
Qed.

Lemma and_or_compiles_witness :
  type apple_and_dotnet = "operator" /\
  operator apple_and_dotnet = Some AND /\ AND <> NOT /\
  children apple_and_dotnet =
    Some [condition_node ORGANIZATION "apple"; condition_node TECHNOLOGY ".net"] /\
  [condition_node ORGANIZATION "apple"; condition_node TECHNOLOGY ".net"] <> [] /\
  Forall (fun child => well_formed child = true)
    [condition_node ORGANIZATION "apple"; condition_node TECHNOLOGY ".net"] /\
  exists outs k',
    compiled_in_order
      [condition_node ORGANIZATION "apple"; condition_node TECHNOLOGY ".net"]
      7 outs k' /\
    length outs = 2%nat /\
    _build_where_clause apple_and_dotnet 7 =
      Return (join " AND " (map (fun out => "(" +:+ out.1 +:+ ")") outs),
              concat (map snd outs), k').
Proof.
  assert (Forall (fun child => well_formed child = true)
            [condition_node ORGANIZATION "apple";
             condition_node TECHNOLOGY ".net"]) as Hall
    by (repeat constructor).
  do 2 (split; [reflexivity|]). split; [discriminate|].
  split; [reflexivity|]. split; [discriminate|]. split; [exact Hall|].
  exact (proj1 (and_or_compiles apple_and_dotnet AND _ 7 eq_refl eq_refl
                  ltac:(discriminate) eq_refl ltac:(discriminate) Hall)).
Defined.

(** C4. A NOT node with exactly one child, compiled at offset [k], gives
    [NOT (<the child's predicate>)], the child's parameter list and the
    child's next offset, which is [k] plus the number of parameters the
    child consumed. *)
Theorem not_compiles (node child : QueryNode) (k : Z) :
  type node = "operator" -> operator node = Some NOT ->
  children node = Some [child] -> well_formed child = true ->
  exists s ps k',
    _build_where_clause child k = Return (s, ps, k') /\
    _build_where_clause node k = Return ("NOT (" +:+ s +:+ ")", ps, k') /\
    k' = k + Z.of_nat (length ps).
Proof.
  intros Hty Hop Hch Hwf.
  destruct (build_where_clause_total child Hwf k) as (s & ps & k' & Hs).
  exists s, ps, k'. split; [exact Hs|]. split.
  - by rewrite (build_not_node node child [] k Hty Hop Hch), Hs.
  - by destruct (build_where_clause_numbered child k s ps k' Hs).
Qed.

Lemma not_compiles_witness :
  type (operator_node NOT [apple_and_dotnet]) = "operator" /\
  operator (operator_node NOT [apple_and_dotnet]) = Some NOT /\
  children (operator_node NOT [apple_and_dotnet]) = Some [apple_and_dotnet] /\
  well_formed apple_and_dotnet = true /\
  exists s ps k',
    _build_where_clause apple_and_dotnet 3 = Return (s, ps, k') /\
    _build_where_clause (operator_node NOT [apple_and_dotnet]) 3 =
      Return ("NOT (" +:+ s +:+ ")", ps, k') /\
    k' = 3 + Z.of_nat (length ps).
Proof.
  do 4 (split; [reflexivity|]).
  exact (not_compiles (operator_node NOT [apple_and_dotnet]) apple_and_dotnet 3
           eq_refl eq_refl eq_refl eq_refl).
Defined.

(** ** Properties of the join-set collector and of the base statement *)

(** C5. On every well-formed tree the collector returns a set, and a field
    is in that set exactly when some condition node of the tree, at any
    depth and under any operators, carries it. NOT(technology) AND
    NOT(organization) gives exactly technology and organization. *)
Theorem collector_gives_referenced_fields (node : QueryNode) :
  well_formed node = true ->
  (exists fs,
     _collect_required_fields node = Return fs /\
     forall f, f ∈ fs <-> references node f) /\
  _collect_required_fields not_technology_and_not_organization =
    Return {[ TECHNOLOGY; ORGANIZATION ]}.
Proof.
  intros Hwf. split; [by apply collect_required_fields_total|by vm_compute].
Qed.

Lemma collector_gives_referenced_fields_witness :
  well_formed not_google_or_apple_and_data = true /\
  exists fs,
    _collect_required_fields not_google_or_apple_and_data = Return fs /\
    forall f, f ∈ fs <-> references not_google_or_apple_and_data f.
Proof.
  split; [reflexivity|].
  exact (proj1 (collector_gives_referenced_fields
                  not_google_or_apple_and_data eq_refl)).
Defined.

(** Every join clause of a field occurs once in the base statement when the
    field is in the join-set, and not at all otherwise. *)
Lemma join_occurrences (fs : gset FieldType) (f : FieldType) :
  Forall (fun clause =>
            occurrences clause (_build_base_query fs) =
            if decide (f ∈ fs) then 1%nat else 0%nat)
         (field_joins f).
Proof.
  unfold _build_base_query, query_parts.
  destruct f;
    destruct (decide (ORGANIZATION ∈ fs)), (decide (TECHNOLOGY ∈ fs)),
      (decide (JOB_FUNCTION ∈ fs));
    repeat constructor; vm_compute; reflexivity.
Qed.

(** C6. For every join-set, the parts of the base statement are the SELECT
    and FROM clauses followed by the join clauses of the fields of the
    join-set, taken in the order organization, technology, job_function;
    in the text, each join clause of a field occurs once if the field is in
    the join-set and not at all otherwise, and the join clauses that occur
    stand in that fixed order. *)
Theorem base_statement_joins (fs : gset FieldType) :
  query_parts fs =
    [select_clause; from_clause] ++
    concat (map field_joins (filter (fun f => f ∈ fs) join_order)) /\
  (forall f,
     Forall (fun clause =>
               occurrences clause (_build_base_query fs) =
               if decide (f ∈ fs) then 1%nat else 0%nat)
            (field_joins f)) /\
  StronglySorted Nat.lt
    (omap (fun clause => position clause (_build_base_query fs))
          (concat (map field_joins join_order))).
Proof.
  split; [|split; [apply join_occurrences|]].
  - unfold query_parts, join_order. rewrite !filter_cons, filter_nil.
    by destruct (decide (ORGANIZATION ∈ fs)), (decide (TECHNOLOGY ∈ fs)),
      (decide (JOB_FUNCTION ∈ fs)).
  - unfold _build_base_query, query_parts.
    destruct (decide (ORGANIZATION ∈ fs)), (decide (TECHNOLOGY ∈ fs)),
      (decide (JOB_FUNCTION ∈ fs));
      vm_compute; repeat first [lia | constructor].
Qed.

(** C7. For every well-formed tree and every limit, the statement is the
    base statement, [" WHERE "], the predicate compiled from offset 0,
    [" LIMIT "] and the limit written in decimal; the parameter list is the
    predicate's, whatever the limit is. *)
Theorem statement_text (node : QueryNode) (limit : Z) :
  well_formed node = true ->
  exists fs where_clause params next_offset,
    _collect_required_fields node = Return fs /\
    _build_where_clause node 0 = Return (where_clause, params, next_offset) /\
    build_query node limit =
      Return (_build_base_query fs +:+ " WHERE " +:+ where_clause
              +:+ " LIMIT " +:+ str limit,
              params).
Proof.
  intros Hwf.
  destruct (collect_required_fields_total node Hwf) as (fs & Hfs & _).
  destruct (build_where_clause_total node Hwf 0) as (w & ps & k' & Hw).
  exists fs, w, ps, k'. split; [exact Hfs|]. split; [exact Hw|].
  unfold build_query. by rewrite Hfs, Hw.
Qed.

Lemma statement_text_witness :
  well_formed apple_and_dotnet = true /\
  exists fs where_clause params next_offset,
    _collect_required_fields apple_and_dotnet = Return fs /\
    _build_where_clause apple_and_dotnet 0 =
      Return (where_clause, params, next_offset) /\
    build_query apple_and_dotnet (-3) =
      Return (_build_base_query fs +:+ " WHERE " +:+ where_clause
              +:+ " LIMIT " +:+ "-3",
              params).
Proof.
  split; [reflexivity|].
  exact (statement_text apple_and_dotnet (-3) eq_refl).
Defined.

(** ** Properties of malformed trees *)

Lemma build_children_raise cs :
  forall k clauses all_params e,
  build_children _build_where_clause cs clauses all_params k = Raise e ->
  exists child k1, In child cs /\ _build_where_clause child k1 = Raise e.
Proof.
  induction cs as [|c cs IH]; intros k clauses all_params e; simpl;
    [discriminate|].
  destruct (_build_where_clause c k) as [[[s ps] k1]|e'] eqn:Hc; simpl.
  - intros H. apply IH in H as (child & k2 & Hin & Hraise). eauto.
  - intros [= <-]. eauto.
Qed.

(** A [ValueError] of the predicate compiler comes from a node with an
    unknown tag, and names that tag. *)
Lemma value_error_origin node :
  forall k reason,
  _build_where_clause node k = Raise (ValueError reason) ->
  exists bad,
    occurs_in bad node /\
    type bad <> "condition" /\ type bad <> "operator" /\
    reason = "Unknown node type: " +:+ type bad.
Proof.
  induction node as [ty op cond|ty op cond cs IH] using QueryNode_ind;
    intros k reason; rewrite build_where_clause_unfold; simpl type;
    (destruct (String.eqb_spec ty "condition") as [Hc|Hc];
     [by destruct (condition _)|]);
    (destruct (String.eqb_spec ty "operator") as [Ho|Ho];
     [|intros [= <-]; eexists; split; [apply occurs_here|done]]);
    unfold _build_operator, build_operator_body;
    simpl operator; simpl children.
  - by destruct (decide (op = Some NOT)).
  - destruct (decide (op = Some NOT)) as [->|Hop].
    + destruct cs as [|first rest]; [discriminate|].
      apply Forall_cons in IH as [IHfirst _].
      destruct (_build_where_clause first k) as [[[s1 ps1] k1]|e] eqn:Hfirst;
        [discriminate|].
      simpl. intros [= ->].
      destruct (IHfirst k reason Hfirst) as (bad & Hbad & Hrest).
      exists bad. split; [|exact Hrest].
      eapply occurs_below; [exact Ho|reflexivity|by left|exact Hbad].
    + destruct (build_children _ cs [] [] k) as [[[cl ap] k1]|e] eqn:Hloop;
        [discriminate|].
      simpl. intros [= ->].
      apply build_children_raise in Hloop as (child & k1 & Hin & Hraise).
      rewrite Forall_forall in IH.
      destruct (IH child (proj2 (list_elem_of_In _ _) Hin) k1 reason Hraise)
        as (bad & Hbad & Hrest).
      exists bad. split; [|exact Hrest].
      eapply occurs_below; [exact Ho|reflexivity|exact Hin|exact Hbad].
Qed.

(** C8. A node whose tag is neither "condition" nor "operator" does not
    compile: the predicate compiler raises a [ValueError] whose message
    names the tag, and so does [build_query]; the handler answers with
    status 400 and that message, and hands nothing to the executor. No
    other [ValueError] comes out of the predicate compiler: one that does
    names the unknown tag of a node of the tree; and whenever the
    predicate compiler raises it, on a tree whose join-set was collected,
    the handler answers with status 400 and hands nothing to the
    executor. *)
Theorem unknown_type_is_client_error (row : Type)
    (execute_query : string -> list string -> result (list row))
    (node : QueryNode) (k limit : Z) :
  type node <> "condition" -> type node <> "operator" ->
  _build_where_clause node k =
    Raise (ValueError ("Unknown node type: " +:+ type node)) /\
  build_query node limit =
    Raise (ValueError ("Unknown node type: " +:+ type node)) /\
  search_jobs row execute_query node limit =
    ([], HTTPException 400 ("Unknown node type: " +:+ type node)) /\
  (forall tree k' reason,
     _build_where_clause tree k' = Raise (ValueError reason) ->
     exists bad,
       occurs_in bad tree /\
       type bad <> "condition" /\ type bad <> "operator" /\
       reason = "Unknown node type: " +:+ type bad) /\
  (forall tree fs reason,
     _collect_required_fields tree = Return fs ->
     _build_where_clause tree 0 = Raise (ValueError reason) ->
     search_jobs row execute_query tree limit =
       ([], HTTPException 400 reason)).
Proof.
  intros Hc Ho.
  assert (forall k, _build_where_clause node k =
            Raise (ValueError ("Unknown node type: " +:+ type node))) as Hw.
  { intros k0. rewrite build_where_clause_unfold.
    apply String.eqb_neq in Hc, Ho. by rewrite Hc, Ho. }
  assert (build_query node limit =
            Raise (ValueError ("Unknown node type: " +:+ type node))) as Hq.
  { unfold build_query. rewrite collect_required_fields_unfold.
    apply String.eqb_neq in Hc, Ho. rewrite Hc, Ho. simpl. by rewrite Hw. }
  split; [apply Hw|]. split; [exact Hq|].
  split; [unfold search_jobs; by rewrite Hq|].
  split; [intros tree k' reason; apply value_error_origin|].
  intros tree fs reason Hfs Hraise.
  unfold search_jobs, build_query. by rewrite Hfs, Hraise.
Qed.

Lemma unknown_type_is_client_error_witness :
  type (mkQueryNode "range" None None None) <> "condition" /\
  type (mkQueryNode "range" None None None) <> "operator" /\
  search_jobs unit (fun _ _ => Return [tt; tt])
    (mkQueryNode "range" None None None) 10 =
  ([], HTTPException 400 "Unknown node type: range").
Proof.
  split; [discriminate|]. split; [discriminate|].
  exact (proj1 (proj2 (proj2
    (unknown_type_is_client_error unit (fun _ _ => Return [tt; tt])
       (mkQueryNode "range" None None None) 0 10
       ltac:(discriminate) ltac:(discriminate))))).
Defined.

(** C9, as stated, fails: an AND node with an empty list of children breaks
    the arity invariant, and yet it compiles; no validation error is
    raised, and the statement, with its empty predicate, is handed to the
    executor. *)
Lemma empty_and_is_compiled :
  arity_violation (operator_node AND []) = true /\
  build_query (operator_node AND []) 10 =
    Return ("SELECT DISTINCT jp.id, jp.datetime_pulled FROM job_posts jp "
            +:+ "WHERE  LIMIT 10", []) /\
  ~ (exists reason,
       build_query (operator_node AND []) 10 = Raise (ValueError reason)) /\
  search_jobs unit (fun _ _ => Return []) (operator_node AND []) 10 =
    ([("SELECT DISTINCT jp.id, jp.datetime_pulled FROM job_posts jp "
       +:+ "WHERE  LIMIT 10", [])],
     Success 0 []).
Proof.
  split; [reflexivity|]. split; [by vm_compute|].
  split; [|by vm_compute].
  intros (reason & H). vm_compute in H. discriminate.
Qed.

(** What the code does with the operator nodes that have nothing to
    compile: a NOT node with an empty list of children fails on
    [node.children[0]], and an operator node without a list of children
    fails on the list it does not have; neither error is a [ValueError],
    and the handler answers with status 500. *)
Lemma operator_without_children_raises (row : Type)
    (execute_query : string -> list string -> result (list row))
    (node : QueryNode) (k limit : Z) :
  type node = "operator" ->
  (operator node = Some NOT -> children node = Some [] ->
   (exists msg, _build_where_clause node k = Raise (IndexError msg)) /\
   search_jobs row execute_query node limit =
     ([], HTTPException 500 "Internal server error")) /\
  (children node = None ->
   (exists msg, _build_where_clause node k = Raise (TypeError msg)) /\
   search_jobs row execute_query node limit =
     ([], HTTPException 500 "Internal server error")).
Proof.
  intros Hty. split.
  - intros Hop Hch.
    assert (forall k, _build_where_clause node k =
              Raise (IndexError "list index out of range")) as Hw.
    { intros k0. rewrite (build_operator_node node k0 Hty).
      unfold _build_operator, build_operator_body. rewrite Hop, Hch.
      by rewrite decide_True. }
    split; [eexists; apply Hw|].
    unfold search_jobs, build_query.
    rewrite (collect_operator_node node [] Hty Hch). simpl. by rewrite Hw.
  - intros Hch.
    assert (forall k, exists msg,
              _build_where_clause node k = Raise (TypeError msg)) as Hw.
    { intros k0. rewrite (build_operator_node node k0 Hty).
      unfold _build_operator, build_operator_body. rewrite Hch.
      destruct (decide (operator node = Some NOT)); eauto. }
    split; [apply Hw|].
    unfold search_jobs, build_query.
    rewrite collect_required_fields_unfold, Hty, Hch. simpl.
    destruct (Hw 0) as (msg & ->). reflexivity.
Qed.

(** C9, amended. The compiler does not check the arity of operator nodes:
    an operator node that breaks the arity invariant raises a validation
    error only for an unknown tag below it. An AND or OR node with an empty
    list of children compiles, to the empty predicate with no parameters,
    and its statement is handed to the executor; a NOT node with two or
    more children compiles as its first child does. *)
Theorem arity_is_not_validated (row : Type)
    (execute_query : string -> list string -> result (list row))
    (node : QueryNode) (k limit : Z) :
  type node = "operator" -> arity_violation node = true ->
  (operator node <> Some NOT -> children node = Some [] ->
   _build_where_clause node k = Return ("", [], k) /\
   build_query node limit =
     Return (_build_base_query ∅ +:+ " WHERE " +:+ "" +:+ " LIMIT "
             +:+ str limit, []) /\
   (search_jobs row execute_query node limit).1 =
     [(_build_base_query ∅ +:+ " WHERE " +:+ "" +:+ " LIMIT "
       +:+ str limit, [])]) /\
  (forall first second rest,
     operator node = Some NOT ->
     children node = Some (first :: second :: rest) ->
     _build_where_clause node k =
     match _build_where_clause first k with
     | Return (sub_clause, params, next_offset) =>
       Return ("NOT (" +:+ sub_clause +:+ ")", params, next_offset)
     | Raise e => Raise e
     end) /\
  (forall reason,
     _build_where_clause node k = Raise (ValueError reason) ->
     exists bad,
       occurs_in bad node /\
       type bad <> "condition" /\ type bad <> "operator" /\
       reason = "Unknown node type: " +:+ type bad).
Proof.
  intros Hty _.
  split; [|split].
  - intros Hop Hch.
    assert (forall k, _build_where_clause node k = Return ("", [], k)) as Hw
      by (intros k0; by rewrite (build_and_or_node node [] k0 Hty Hop Hch)).
    split; [apply Hw|].
    assert (build_query node limit =
              Return (_build_base_query ∅ +:+ " WHERE " +:+ "" +:+ " LIMIT "
                      +:+ str limit, [])) as Hq.
    { unfold build_query.
      rewrite (collect_operator_node node [] Hty Hch). simpl.
      by rewrite Hw. }
    split; [exact Hq|]. unfold search_jobs. by rewrite Hq.
  - intros first second rest Hop Hch.
    exact (build_not_node node first (second :: rest) k Hty Hop Hch).
  - intros reason. apply value_error_origin.
Qed.

Lemma arity_is_not_validated_witness :
  type (operator_node OR []) = "operator" /\
  arity_violation (operator_node OR []) = true /\
  _build_where_clause (operator_node OR []) 2 = Return ("", [], 2).
Proof.
  split; [reflexivity|]. split; [reflexivity|].
  exact (proj1 (proj1
    (arity_is_not_validated unit (fun _ _ => Return [])
       (operator_node OR []) 2 10 eq_refl eq_refl)
    ltac:(discriminate) eq_refl)).
Defined.

(** C10. A NOT node with two or more children, all of them well-formed,
    raises no error: its predicate is [NOT (<first child's predicate>)],
    its parameter list and next offset are the first child's, and the
    statement is built; the join-set holds the fields of all the children,
    so that the join clauses of every field of a later child are in the
    base statement. *)
Theorem not_compiles_first_child_only (node first second : QueryNode)
    (rest : list QueryNode) (k limit : Z) :
  type node = "operator" -> operator node = Some NOT ->
  children node = Some (first :: second :: rest) ->
  Forall (fun child => well_formed child = true) (first :: second :: rest) ->
  exists s ps k' fs,
    _build_where_clause first k = Return (s, ps, k') /\
    _build_where_clause node k = Return ("NOT (" +:+ s +:+ ")", ps, k') /\
    _collect_required_fields node = Return fs /\
    (forall f,
       f ∈ fs <->
       exists child, In child (first :: second :: rest) /\ references child f) /\
    (forall later f,
       In later (second :: rest) -> references later f ->
       Forall (fun clause =>
                 occurrences clause (_build_base_query fs) = 1%nat)
              (field_joins f)) /\
    exists s0 ps0 k0,
      _build_where_clause first 0 = Return (s0, ps0, k0) /\
      build_query node limit =
        Return (_build_base_query fs +:+ " WHERE "
                +:+ ("NOT (" +:+ s0 +:+ ")")
                +:+ " LIMIT " +:+ str limit, ps0).
Proof.
  intros Hty Hop Hch Hall.
  pose proof (Forall_inv Hall) as Hfirst.
  destruct (build_where_clause_total first Hfirst k) as (s & ps & k' & Hs).
  destruct (build_where_clause_total first Hfirst 0) as (s0 & ps0 & k0 & Hs0).
  pose proof (collect_children_spec (first :: second :: rest)) as Hloop.
  specialize (Hloop (Forall_impl _ _ _ Hall
                       (fun c _ => collect_required_fields_spec c)) ∅).
  rewrite <- (collect_operator_node node _ Hty Hch) in Hloop.
  destruct (_collect_required_fields node) as [fs|e] eqn:Hfs.
  2: { destruct Hloop as (c & Hin & Hc).
       rewrite Forall_forall in Hall.
       rewrite (Hall c (proj2 (list_elem_of_In _ _) Hin)) in Hc. discriminate. }
  assert (forall f, f ∈ fs <->
            exists child, In child (first :: second :: rest) /\
                          references child f) as Hmem.
  { intros f. rewrite Hloop.
    split; [intros [[]%not_elem_of_empty|?]; done|auto]. }
  exists s, ps, k', fs. split; [exact Hs|]. split.
  { by rewrite (build_not_node node first _ k Hty Hop Hch), Hs. }
  split; [reflexivity|]. split; [exact Hmem|]. split.
  - intros later f Hin Hf.
    assert (f ∈ fs) as Hf' by (apply Hmem; exists later; split; [by right|done]).
    pose proof (join_occurrences fs f) as Hocc.
    by rewrite decide_True in Hocc.
  - exists s0, ps0, k0. split; [exact Hs0|].
    unfold build_query. rewrite Hfs. simpl.
    by rewrite (build_not_node node first _ 0 Hty Hop Hch), Hs0.
Qed.

Lemma not_compiles_first_child_only_witness :
  type not_with_two_children = "operator" /\
  operator not_with_two_children = Some NOT /\
  children not_with_two_children =
    Some [condition_node TECHNOLOGY "python";
          condition_node ORGANIZATION "google"] /\
  Forall (fun child => well_formed child = true)
    [condition_node TECHNOLOGY "python"; condition_node ORGANIZATION "google"] /\
  exists s ps k' fs,
    _build_where_clause (condition_node TECHNOLOGY "python") 0 =
      Return (s, ps, k') /\
    _build_where_clause not_with_two_children 0 =
      Return ("NOT (" +:+ s +:+ ")", ps, k') /\
    _collect_required_fields not_with_two_children = Return fs.
Proof.
  assert (Forall (fun child => well_formed child = true)
            [condition_node TECHNOLOGY "python";
             condition_node ORGANIZATION "google"]) as Hall
    by (repeat constructor).
  do 3 (split; [reflexivity|]). split; [exact Hall|].
  destruct (not_compiles_first_child_only not_with_two_children
              (condition_node TECHNOLOGY "python")
              (condition_node ORGANIZATION "google") [] 0 10
              eq_refl eq_refl eq_refl Hall)
    as (s & ps & k' & fs & Hs & Hnode & Hfs & _).
  exists s, ps, k', fs. auto.
Defined.


(** ** Further properties of the predicate compiler *)

Section Parameters.

Lemma compiled_conditions_unfold node :
  compiled_conditions node =
  if (type node =? "condition")%string then
    match condition node with Some c => [c] | None => [] end
  else if (type node =? "operator")%string then
    match children node with
    | Some cs =>
      if decide (operator node = Some NOT) then
        match cs with
        | first :: _ => compiled_conditions first
        | [] => []
        end
      else flat_map compiled_conditions cs
    | None => []
    end
  else [].
Proof. destruct node; reflexivity. Qed.

Lemma compiled_in_order_parameters cs k outs k' :
  compiled_in_order cs k outs k' ->
  Forall (fun c => forall k s ps k',
            _build_where_clause c k = Return (s, ps, k') ->
            ps = map wrapped (compiled_conditions c)) cs ->
  concat (map snd outs) = map wrapped (flat_map compiled_conditions cs).
Proof.
  induction 1 as [k|c rest k s ps k1 outs k2 Hc _ IH]; intros Hall;
    [reflexivity|].
  apply Forall_cons in Hall as [Hhead Hrest].
  simpl. rewrite map_app, (Hhead k s ps k1 Hc), (IH Hrest). reflexivity.
Qed.

(** X1. Whenever a tree compiles, its parameter list is made of the values
    of the conditions the compiler visited, in the order of the visit,
    each between two [%]; the next offset is the offset plus their
    number. *)
Theorem parameters_are_wrapped_values (node : QueryNode) (k : Z)
    (s : string) (ps : list string) (k' : Z) :
  _build_where_clause node k = Return (s, ps, k') ->
  ps = map wrapped (compiled_conditions node) /\
  k' = k + Z.of_nat (length (compiled_conditions node)).
Proof.
  intros H.
  assert (ps = map wrapped (compiled_conditions node)) as Hps.
  { revert k s ps k' H.
    induction node as [ty op cond|ty op cond cs IH] using QueryNode_ind;
      intros k s ps k'; rewrite build_where_clause_unfold,
        compiled_conditions_unfold;
      (destruct (type _ =? "condition")%string;
       [destruct (condition _) as [c|]; [|discriminate]; simpl;
        by intros [= <- <- <-]|]);
      (destruct (type _ =? "operator")%string; [|discriminate]);
      unfold _build_operator, build_operator_body;
      simpl operator; simpl children.
    - by destruct (decide (op = Some NOT)).
    - destruct (decide (op = Some NOT)) as [->|Hop].
      + destruct cs as [|first rest]; [discriminate|].
        apply Forall_cons in IH as [IHfirst _].
        destruct (_build_where_clause first k) as [[[s1 ps1] k1]|] eqn:Hfirst;
          [|discriminate].
        simpl. intros [= <- <- <-]. by eapply IHfirst.
      + destruct (build_children _ cs [] [] k) as [[[cl ap] k1]|] eqn:Hloop;
          [|discriminate].
        simpl. intros [= <- <- <-].
        apply build_children_inv in Hloop as (outs & Hin & -> & ->).
        simpl. by eapply compiled_in_order_parameters. }
  split; [exact Hps|].
  destruct (build_where_clause_numbered node k s ps k' H) as (-> & _).
  by rewrite Hps, length_map.
Qed.

Lemma parameters_are_wrapped_values_witness :
  _build_where_clause not_with_two_children 4 =
    Return ("NOT (t.name ILIKE $5)", ["%python%"], 5) /\
  ["%python%"] = map wrapped (compiled_conditions not_with_two_children) /\
  5 = 4 + Z.of_nat (length (compiled_conditions not_with_two_children)).
Proof.
  split; [reflexivity|].
  exact (parameters_are_wrapped_values not_with_two_children 4
           "NOT (t.name ILIKE $5)" ["%python%"] 5 eq_refl).
Defined.

End Parameters.

Section Offsets.

Lemma build_children_shifts cs :
  Forall shifts cs ->
  forall clauses clauses' all_params k j,
  match build_children _build_where_clause cs clauses all_params k with
  | Return (_, ps, k') =>
    exists cl',
      build_children _build_where_clause cs clauses' all_params j =
      Return (cl', ps, j + (k' - k))
  | Raise e =>
    build_children _build_where_clause cs clauses' all_params j = Raise e
  end.
Proof.
  induction 1 as [|c cs Hc _ IH]; intros clauses clauses' all_params k j; simpl.
  - exists clauses'. do 2 f_equal. lia.
  - specialize (Hc k j).
    destruct (_build_where_clause c k) as [[[s ps] k1]|e]; simpl.
    + destruct Hc as (s' & ->).
      specialize (IH (clauses ++ ["(" +:+ s +:+ ")"])
                     (clauses' ++ ["(" +:+ s' +:+ ")"])
                     (all_params ++ ps) k1 (j + (k1 - k))).
      simpl in IH |- *.
      destruct (build_children _ cs _ _ k1) as [[[cl ap] kf]|e].
      * destruct IH as (cl' & ->). exists cl'. do 2 f_equal. lia.
      * exact IH.
    + by rewrite Hc.
Qed.

Lemma build_where_clause_shifts node : shifts node.
Proof.
  induction node as [ty op cond|ty op cond cs IH] using QueryNode_ind;
    intros k j; rewrite !build_where_clause_unfold;
    (destruct (type _ =? "condition")%string;
     [destruct (condition _) as [c|]; [|reflexivity]; simpl;
      eexists; do 2 f_equal; lia|]);
    (destruct (type _ =? "operator")%string; [|reflexivity]);
    unfold _build_operator, build_operator_body;
    simpl operator; simpl children.
  - by destruct (decide (op = Some NOT)).
  - destruct (decide (op = Some NOT)) as [->|Hop].
    + destruct cs as [|first rest]; [reflexivity|].
      apply Forall_cons in IH as [IHfirst _]. specialize (IHfirst k j).
      destruct (_build_where_clause first k) as [[[s1 ps1] k1]|e]; simpl.
      * destruct IHfirst as (s' & ->). simpl. eauto.
      * by rewrite IHfirst.
    + pose proof (build_children_shifts cs IH [] [] [] k j) as Hloop.
      destruct (build_children _ cs [] [] k) as [[[cl ap] k1]|e]; simpl.
      * destruct Hloop as (cl' & ->). simpl. eauto.
      * by rewrite Hloop.
Qed.

(** X2. The offset a tree is compiled at changes neither its parameter
    list, nor how many offsets it consumes, nor whether it raises and
    what. *)
Theorem parameters_do_not_depend_on_offset (node : QueryNode) (k j : Z) :
  returned (fun out : compiled => (out.1.2, out.2 - k))
           (_build_where_clause node k) =
  returned (fun out : compiled => (out.1.2, out.2 - j))
           (_build_where_clause node j).
Proof.
  pose proof (build_where_clause_shifts node k j) as H.
  destruct (_build_where_clause node k) as [[[s ps] k']|e].
  - destruct H as (s' & ->). simpl. do 2 f_equal. lia.
  - by rewrite H.
Qed.

End Offsets.

Section Parentheses.

Lemma paren_depth_app (a b : string) :
  forall d d', paren_depth a d = Some d' ->
  paren_depth (a +:+ b) d = paren_depth b d'.
Proof.
  induction a as [|c a IH]; intros d d'; simpl.
  - by intros [= ->].
  - destruct (Ascii.eqb c "("); [apply IH|].
    destruct (Ascii.eqb c ")"); [|apply IH].
    destruct d; [discriminate|apply IH].
Qed.

Lemma paren_depth_numeral (n : uint) (d : nat) :
  paren_depth (NilEmpty.string_of_uint n) d = Some d.
Proof. induction n; simpl; auto. Qed.

Lemma paren_depth_str (n : Z) (d : nat) : paren_depth (str n) d = Some d.
Proof.
  unfold str. destruct (Z.to_int n) as [u|u]; simpl;
    destruct u; simpl; auto using paren_depth_numeral.
Qed.

Lemma paren_depth_condition f n d :
  paren_depth (field_mapping f +:+ " ILIKE $" +:+ str n) d = Some d.
Proof.
  destruct f; simpl field_mapping.
  - change (paren_depth ("t.name ILIKE $" +:+ str n) d = Some d).
    by rewrite (paren_depth_app _ _ d d), paren_depth_str.
  - change (paren_depth ("jf.name ILIKE $" +:+ str n) d = Some d).
    by rewrite (paren_depth_app _ _ d d), paren_depth_str.
  - change (paren_depth ("o.name ILIKE $" +:+ str n) d = Some d).
    by rewrite (paren_depth_app _ _ d d), paren_depth_str.
Qed.

Lemma paren_depth_parenthesized out d :
  (forall d, paren_depth out.1 d = Some d) ->
  paren_depth (parenthesized out) d = Some d.
Proof.
  intros H. unfold parenthesized.
  change (paren_depth (out.1 +:+ ")") (S d) = Some d).
  by rewrite (paren_depth_app _ _ (S d) (S d)).
Qed.

Lemma paren_depth_join sep outs :
  (forall d, paren_depth sep d = Some d) ->
  Forall (fun out => forall d, paren_depth out.1 d = Some d) outs ->
  forall d, paren_depth (join sep (map parenthesized outs)) d = Some d.
Proof.
  intros Hsep. induction 1 as [|o outs Ho _ IH]; intros d; [reflexivity|].
  destruct outs as [|o' outs].
  - by apply paren_depth_parenthesized.
  - change (join sep (map parenthesized (o :: o' :: outs)))
      with (parenthesized o +:+ sep +:+ join sep (map parenthesized (o' :: outs))).
    rewrite (paren_depth_app _ _ d d) by (by apply paren_depth_parenthesized).
    rewrite (paren_depth_app _ _ d d) by apply Hsep.
    apply IH.
Qed.

Lemma compiled_in_order_balanced cs k outs k' :
  compiled_in_order cs k outs k' ->
  Forall (fun c => forall k s ps k',
            _build_where_clause c k = Return (s, ps, k') ->
            forall d, paren_depth s d = Some d) cs ->
  Forall (fun out => forall d, paren_depth out.1 d = Some d) outs.
Proof.
  induction 1 as [k|c rest k s ps k1 outs k2 Hc _ IH]; intros Hall;
    [constructor|].
  apply Forall_cons in Hall as [Hhead Hrest].
  constructor; [exact (Hhead k s ps k1 Hc)|exact (IH Hrest)].
Qed.

(** X3. Whenever a tree compiles, the parentheses of its predicate are
    balanced: read from any depth, the text never closes a parenthesis it
    did not open and ends at the depth it started from. *)
Theorem predicate_is_balanced (node : QueryNode) (k : Z)
    (s : string) (ps : list string) (k' : Z) :
  _build_where_clause node k = Return (s, ps, k') ->
  forall d, paren_depth s d = Some d.
Proof.
  revert k s ps k'.
  induction node as [ty op cond|ty op cond cs IH] using QueryNode_ind;
    intros k s ps k'; rewrite build_where_clause_unfold;
    (destruct (type _ =? "condition")%string;
     [destruct (condition _) as [c|]; [|discriminate]; simpl;
      intros [= <- <- <-] d; apply paren_depth_condition|]);
    (destruct (type _ =? "operator")%string; [|discriminate]);
    unfold _build_operator, build_operator_body;
    simpl operator; simpl children.
  - by destruct (decide (op = Some NOT)).
  - destruct (decide (op = Some NOT)) as [->|Hop].
    + destruct cs as [|first rest]; [discriminate|].
      apply Forall_cons in IH as [IHfirst _].
      destruct (_build_where_clause first k) as [[[s1 ps1] k1]|] eqn:Hfirst;
        [|discriminate].
      simpl. intros [= <- <- <-] d.
      change (paren_depth (s1 +:+ ")") (S d) = Some d).
      by rewrite (paren_depth_app _ _ (S d) (S d))
        by exact (IHfirst k s1 ps1 k1 Hfirst (S d)).
    + destruct (build_children _ cs [] [] k) as [[[cl ap] k1]|] eqn:Hloop;
        [|discriminate].
      simpl. intros [= <- <- <-].
      apply build_children_inv in Hloop as (outs & Hin & -> & ->).
      simpl. apply paren_depth_join.
      * intros d. by destruct (decide (op = Some AND)).
      * by eapply compiled_in_order_balanced.
Qed.

Lemma predicate_is_balanced_witness :
  _build_where_clause not_google_or_apple_and_data 0 =
    Return ("(NOT ((o.name ILIKE $1) OR (o.name ILIKE $2))) "
            +:+ "AND (jf.name ILIKE $3)",
            ["%google%"; "%apple%"; "%data%"], 3) /\
  forall d,
    paren_depth ("(NOT ((o.name ILIKE $1) OR (o.name ILIKE $2))) "
                 +:+ "AND (jf.name ILIKE $3)") d = Some d.
Proof.
  split; [by vm_compute|].
  exact (predicate_is_balanced not_google_or_apple_and_data 0
           ("(NOT ((o.name ILIKE $1) OR (o.name ILIKE $2))) "
            +:+ "AND (jf.name ILIKE $3)")
           ["%google%"; "%apple%"; "%data%"] 3 eq_refl).
Defined.

End Parentheses.

Section Values.

Variable g : string -> string.

Lemma build_children_map_values cs :
  Forall (fun c => forall k,
            returned text_and_offset (_build_where_clause (map_values g c) k) =
            returned text_and_offset (_build_where_clause c k)) cs ->
  forall clauses all_params all_params' k,
  returned text_and_offset
    (build_children _build_where_clause (map (map_values g) cs)
       clauses all_params' k) =
  returned text_and_offset
    (build_children _build_where_clause cs clauses all_params k).
Proof.
  induction 1 as [|c cs Hc _ IH]; intros clauses all_params all_params' k;
    [reflexivity|].
  simpl. specialize (Hc k).
  destruct (_build_where_clause (map_values g c) k) as [[[s' ps'] k1']|e'],
    (_build_where_clause c k) as [[[s ps] k1]|e]; simpl in Hc |- *;
    try discriminate Hc.
  - injection Hc as -> ->. apply IH.
  - by injection Hc as ->.
Qed.

Lemma build_where_clause_map_values node :
  forall k,
  returned text_and_offset (_build_where_clause (map_values g node) k) =
  returned text_and_offset (_build_where_clause node k).
Proof.
  induction node as [ty op cond|ty op cond cs IH] using QueryNode_ind;
    intros k; rewrite !build_where_clause_unfold; simpl type; simpl condition;
    (destruct (ty =? "condition")%string;
     [by destruct cond|]);
    (destruct (ty =? "operator")%string; [|reflexivity]);
    unfold _build_operator, build_operator_body;
    simpl operator; simpl children.
  - by destruct (decide (op = Some NOT)).
  - destruct (decide (op = Some NOT)) as [->|Hop].
    + destruct cs as [|first rest]; [reflexivity|].
      apply Forall_cons in IH as [IHfirst _]. specialize (IHfirst k).
      simpl.
      destruct (_build_where_clause (map_values g first) k)
        as [[[s' ps'] k1']|e'],
        (_build_where_clause first k) as [[[s ps] k1]|e];
        simpl in IHfirst |- *; try discriminate IHfirst.
      * by injection IHfirst as -> ->.
      * exact IHfirst.
    + pose proof (build_children_map_values cs IH [] [] [] k) as Hloop.
      destruct (build_children _ (map (map_values g) cs) [] [] k)
        as [[[cl' ap'] k1']|e'],
        (build_children _ cs [] [] k) as [[[cl ap] k1]|e];
        simpl in Hloop |- *; try discriminate Hloop.
      * by injection Hloop as -> ->.
      * by injection Hloop as ->.
Qed.

Lemma collect_children_map_values cs :
  Forall (fun c => _collect_required_fields (map_values g c) =
                   _collect_required_fields c) cs ->
  forall fields,
  collect_children _collect_required_fields (map (map_values g) cs) fields =
  collect_children _collect_required_fields cs fields.
Proof.
  induction 1 as [|c cs Hc _ IH]; intros fields; [reflexivity|].
  simpl. rewrite Hc.
  destruct (_collect_required_fields c); [apply IH|reflexivity].
Qed.

Lemma collect_required_fields_map_values node :
  _collect_required_fields (map_values g node) = _collect_required_fields node.
Proof.
  induction node as [ty op cond|ty op cond cs IH] using QueryNode_ind;
    rewrite !collect_required_fields_unfold; simpl type; simpl condition;
    simpl children;
    (destruct (ty =? "condition")%string; [by destruct cond|]);
    (destruct (ty =? "operator")%string; [|reflexivity]);
    [reflexivity|].
  destruct cs as [|c cs]; [reflexivity|].
  exact (collect_children_map_values (c :: cs) IH ∅).
Qed.

(** X4. No value reaches the text: rewriting the values of the conditions
    of a tree changes neither the predicate, nor the next offset, nor the
    join-set, nor the statement, nor whether an error is raised and which;
    the rewritten values only show in the parameters. *)
Theorem text_does_not_depend_on_values (node : QueryNode) (k limit : Z) :
  returned text_and_offset (_build_where_clause (map_values g node) k) =
    returned text_and_offset (_build_where_clause node k) /\
  _collect_required_fields (map_values g node) =
    _collect_required_fields node /\
  returned fst (build_query (map_values g node) limit) =
    returned fst (build_query node limit) /\
  map value (compiled_conditions (map_values g node)) =
    map g (map value (compiled_conditions node)).
Proof.
  split; [apply build_where_clause_map_values|].
  split; [apply collect_required_fields_map_values|].
  split.
  - unfold build_query. rewrite collect_required_fields_map_values.
    destruct (_collect_required_fields node) as [fs|e]; [|reflexivity].
    simpl. pose proof (build_where_clause_map_values node 0) as H.
    destruct (_build_where_clause (map_values g node) 0)
      as [[[s' ps'] k1']|e'],
      (_build_where_clause node 0) as [[[s ps] k1]|e];
      simpl in H |- *; try discriminate H.
    + by injection H as -> ->.
    + by injection H as ->.
  - induction node as [ty op cond|ty op cond cs IH] using QueryNode_ind;
      rewrite !compiled_conditions_unfold; simpl type; simpl condition;
      simpl children; simpl operator;
      (destruct (ty =? "condition")%string; [by destruct cond|]);
      (destruct (ty =? "operator")%string; [|reflexivity]);
      [reflexivity|].
    destruct (decide (op = Some NOT)).
    + destruct cs as [|first rest]; [reflexivity|].
      by apply Forall_cons in IH as [IHfirst _].
    + induction IH as [|c cs Hc _ IHcs]; [reflexivity|].
      simpl. by rewrite !map_app, Hc, IHcs.
Qed.

End Values.

(** ** Further properties of the collector and of the statement *)

Section Collector_errors.

Lemma collect_children_raise_inv cs :
  forall fields e,
  collect_children _collect_required_fields cs fields = Raise e ->
  exists c, In c cs /\ _collect_required_fields c = Raise e.
Proof.
  induction cs as [|c cs IH]; intros fields e; simpl; [discriminate|].
  destruct (_collect_required_fields c) as [sub|e'] eqn:Hc; simpl.
  - intros H. apply IH in H as (c' & Hin & Hraise). eauto.
  - intros [= <-]. eauto.
Qed.

Lemma collect_children_raise cs c e :
  In c cs -> _collect_required_fields c = Raise e ->
  forall fields, exists e',
    collect_children _collect_required_fields cs fields = Raise e'.
Proof.
  induction cs as [|c' cs IH]; intros Hin Hraise fields; [destruct Hin|].
  simpl. destruct Hin as [->|Hin].
  - rewrite Hraise. simpl. eauto.
  - destruct (_collect_required_fields c'); simpl; eauto.
Qed.

Lemma collect_raise_origin node :
  forall e, _collect_required_fields node = Raise e ->
  (exists msg, e = AttributeError msg) /\
  exists bad, occurs_in bad node /\ lacks_condition bad.
Proof.
  induction node as [ty op cond|ty op cond cs IH] using QueryNode_ind;
    intros e; rewrite collect_required_fields_unfold; simpl type;
    simpl condition; simpl children;
    (destruct (String.eqb_spec ty "condition") as [Hc|Hc];
     [destruct cond as [c|] eqn:Hcond; [discriminate|];
      intros [= <-]; split; [eauto|];
      eexists; split; [apply occurs_here|by split]|]);
    (destruct (String.eqb_spec ty "operator") as [Ho|Ho]; [|discriminate]);
    [discriminate|].
  destruct cs as [|c cs]; [discriminate|].
  intros H. apply collect_children_raise_inv in H as (c' & Hin & Hraise).
  rewrite Forall_forall in IH.
  destruct (IH c' (proj2 (list_elem_of_In _ _) Hin) e Hraise)
    as (Hmsg & bad & Hbad & Hlacks).
  split; [exact Hmsg|]. exists bad. split; [|exact Hlacks].
  eapply occurs_below; [exact Ho|reflexivity|exact Hin|exact Hbad].
Qed.

Lemma collect_raises_below bad node :
  occurs_in bad node -> lacks_condition bad ->
  exists e, _collect_required_fields node = Raise e.
Proof.
  intros Hocc [Hty Hcond].
  induction Hocc as [|node cs child Hop Hch Hin _ IH].
  - rewrite collect_required_fields_unfold, Hty, Hcond. simpl. eauto.
  - destruct IH as (e & He).
    rewrite (collect_operator_node node cs Hop Hch).
    by eapply collect_children_raise.
Qed.

(** X5. The collector raises exactly when a condition node without a
    condition occurs in the tree, and what it raises is an
    [AttributeError], never a validation error. *)
Theorem collector_raises_iff (node : QueryNode) :
  ((exists e, _collect_required_fields node = Raise e) <->
   (exists bad, occurs_in bad node /\ lacks_condition bad)) /\
  (forall e, _collect_required_fields node = Raise e ->
             exists msg, e = AttributeError msg).
Proof.
  split; [split|].
  - intros (e & He). by apply collect_raise_origin in He as [_ ?].
  - intros (bad & Hocc & Hbad). by eapply collect_raises_below.
  - intros e He. by apply collect_raise_origin in He as [? _].
Qed.

(** X6. A condition node without a condition, anywhere in the tree, makes
    the handler answer with status 500 and the fixed detail, before
    anything is compiled or executed: the request is not reported as
    malformed. *)
Theorem missing_condition_is_server_error (row : Type)
    (execute_query : string -> list string -> result (list row))
    (node bad : QueryNode) (limit : Z) :
  occurs_in bad node -> lacks_condition bad ->
  (exists msg, build_query node limit = Raise (AttributeError msg)) /\
  search_jobs row execute_query node limit =
    ([], HTTPException 500 "Internal server error").
Proof.
  intros Hocc Hbad.
  destruct (collect_raises_below bad node Hocc Hbad) as (e & He).
  destruct (collect_raise_origin node e He) as [(msg & ->) _].
  assert (build_query node limit = Raise (AttributeError msg)) as Hq
    by (unfold build_query; by rewrite He).
  split; [eauto|]. unfold search_jobs. by rewrite Hq.
Qed.

Lemma missing_condition_is_server_error_witness :
  occurs_in (mkQueryNode "condition" None None None)
    (operator_node AND
       [apple_query; mkQueryNode "condition" None None None]) /\
  lacks_condition (mkQueryNode "condition" None None None) /\
  search_jobs unit (fun _ _ => Return [])
    (operator_node AND
       [apple_query; mkQueryNode "condition" None None None]) 10 =
  ([], HTTPException 500 "Internal server error").
Proof.
  assert (occurs_in (mkQueryNode "condition" None None None)
            (operator_node AND
               [apple_query; mkQueryNode "condition" None None None]))
    as Hocc.
  { eapply occurs_below;
      [reflexivity|reflexivity|right; left; reflexivity|apply occurs_here]. }
  split; [exact Hocc|]. split; [split; reflexivity|].
  exact (proj2 (missing_condition_is_server_error unit (fun _ _ => Return [])
                  _ _ 10 Hocc (conj eq_refl eq_refl))).
Defined.

End Collector_errors.

Section Collector_sets.

(** X7. The join-set of an operator node depends only on which children
    it has: two operator nodes whose lists hold the same well-formed
    children, in any order and any number of times, under any operators,
    have the same join-set, and so the same base statement. *)
Theorem join_set_ignores_order (node node' : QueryNode)
    (cs cs' : list QueryNode) :
  type node = "operator" -> type node' = "operator" ->
  children node = Some cs -> children node' = Some cs' ->
  (forall c, In c cs <-> In c cs') ->
  Forall (fun child => well_formed child = true) cs ->
  exists fs,
    _collect_required_fields node = Return fs /\
    _collect_required_fields node' = Return fs.
Proof.
  intros Hty Hty' Hch Hch' Hsame Hall.
  assert (forall l, (forall c, In c l -> well_formed c = true) ->
            exists fs,
              collect_children _collect_required_fields l ∅ = Return fs /\
              forall f, f ∈ fs <-> exists c, In c l /\ references c f) as Hloop.
  { intros l Hl.
    pose proof (collect_children_spec l) as H.
    specialize (H (proj2 (Forall_forall _ _)
                     (fun c _ => collect_required_fields_spec c)) ∅).
    destruct (collect_children _ l ∅) as [fs|e].
    - exists fs. split; [reflexivity|]. intros f. rewrite H.
      split; [intros [[]%not_elem_of_empty|?]; done|auto].
    - destruct H as (c & Hin & Hc). rewrite (Hl c Hin) in Hc. discriminate. }
  rewrite Forall_forall in Hall.
  assert (forall c, In c cs -> well_formed c = true) as Hwf
    by (intros c Hin; by apply Hall, list_elem_of_In).
  destruct (Hloop cs Hwf) as (fs & Hfs & Hmem).
  destruct (Hloop cs') as (fs' & Hfs' & Hmem').
  { intros c Hin. by apply Hwf, Hsame. }
  exists fs.
  rewrite (collect_operator_node node cs Hty Hch),
    (collect_operator_node node' cs' Hty' Hch'), Hfs, Hfs'.
  split; [reflexivity|]. f_equal. apply set_eq. intros f.
  rewrite Hmem, Hmem'. split; intros (c & Hin & Hf); exists c;
    (split; [by apply Hsame|exact Hf]).
Qed.

Lemma join_set_ignores_order_witness :
  exists fs,
    _collect_required_fields apple_and_dotnet = Return fs /\
    _collect_required_fields
      (operator_node OR
         [condition_node TECHNOLOGY ".net"; condition_node ORGANIZATION "apple";
          condition_node TECHNOLOGY ".net"]) = Return fs.
Proof.
  refine (join_set_ignores_order apple_and_dotnet
            (operator_node OR
               [condition_node TECHNOLOGY ".net";
                condition_node ORGANIZATION "apple";
                condition_node TECHNOLOGY ".net"])
            _ _ eq_refl eq_refl eq_refl eq_refl _ _).
  - intros c. simpl. tauto.
  - repeat constructor.
Defined.

(** X8. On a well-formed tree the base statement has the join clauses of a
    field, once each, when a condition of the tree carries the field, and
    has none of them otherwise. *)
Theorem joins_are_those_referenced (node : QueryNode) :
  well_formed node = true ->
  exists fs,
    _collect_required_fields node = Return fs /\
    forall f,
      (references node f ->
       Forall (fun clause =>
                 occurrences clause (_build_base_query fs) = 1%nat)
              (field_joins f)) /\
      (~ references node f ->
       Forall (fun clause =>
                 occurrences clause (_build_base_query fs) = 0%nat)
              (field_joins f)).
Proof.
  intros Hwf.
  destruct (collect_required_fields_total node Hwf) as (fs & Hfs & Hmem).
  exists fs. split; [exact Hfs|]. intros f.
  pose proof (join_occurrences fs f) as Hocc.
  split; intros Hf.
  - by rewrite decide_True in Hocc by (by apply Hmem).
  - by rewrite decide_False in Hocc by (by rewrite Hmem).
Qed.

Lemma joins_are_those_referenced_witness :
  well_formed apple_and_dotnet = true /\
  exists fs,
    _collect_required_fields apple_and_dotnet = Return fs /\
    forall f,
      (references apple_and_dotnet f ->
       Forall (fun clause =>
                 occurrences clause (_build_base_query fs) = 1%nat)
              (field_joins f)) /\
      (~ references apple_and_dotnet f ->
       Forall (fun clause =>
                 occurrences clause (_build_base_query fs) = 0%nat)
              (field_joins f)).
Proof.
  split; [reflexivity|].
  exact (joins_are_those_referenced apple_and_dotnet eq_refl).
Defined.

End Collector_sets.

Section Statement.

(** X9. An operator node that has no operator is compiled as an OR: with
    well-formed children, its predicate is the children's predicates, each
    in parentheses, joined by [" OR "], and no error is raised. *)
Theorem missing_operator_is_or (node : QueryNode) (cs : list QueryNode)
    (k : Z) :
  type node = "operator" -> operator node = None ->
  children node = Some cs ->
  Forall (fun child => well_formed child = true) cs ->
  well_formed node = false /\
  exists outs k',
    compiled_in_order cs k outs k' /\
    _build_where_clause node k =
      Return (join " OR " (map parenthesized outs),
              concat (map snd outs), k') /\
    _build_where_clause node k =
      _build_where_clause
        (mkQueryNode "operator" (Some OR) (condition node) (Some cs)) k.
Proof.
  intros Hty Hop Hch Hall. split.
  { by rewrite well_formed_unfold, Hty, Hop. }
  destruct (compiled_in_order_total cs) with (k := k) as (outs & k' & Houts).
  { eapply Forall_impl; [exact Hall|].
    intros c Hc. by apply build_where_clause_total. }
  exists outs, k'. split; [exact Houts|].
  assert (_build_where_clause node k =
            Return (join " OR " (map parenthesized outs),
                    concat (map snd outs), k')) as Hnode.
  { rewrite (build_and_or_node node cs k Hty); [|by rewrite Hop|exact Hch].
    rewrite (build_children_in_order _ _ _ _ [] [] Houts). simpl.
    by rewrite Hop. }
  split; [exact Hnode|]. rewrite Hnode.
  rewrite (build_and_or_node _ cs k); [|reflexivity|discriminate|reflexivity].
  by rewrite (build_children_in_order _ _ _ _ [] [] Houts).
Qed.

Lemma missing_operator_is_or_witness :
  _build_where_clause
    (mkQueryNode "operator" None None
       (Some [condition_node ORGANIZATION "apple";
              condition_node TECHNOLOGY ".net"])) 0 =
  Return ("(o.name ILIKE $1) OR (t.name ILIKE $2)", ["%apple%"; "%.net%"], 2).
Proof.
  destruct (missing_operator_is_or
              (mkQueryNode "operator" None None
                 (Some [condition_node ORGANIZATION "apple";
                        condition_node TECHNOLOGY ".net"]))
              [condition_node ORGANIZATION "apple";
               condition_node TECHNOLOGY ".net"] 0
              eq_refl eq_refl eq_refl ltac:(repeat constructor))
    as (_ & outs & k' & _ & _ & Hor).
  rewrite Hor. reflexivity.
Defined.




Lemma placeholders_str (n : Z) : placeholders (str n) = [].
Proof.
  unfold str. destruct (Z.to_int n) as [u|u]; simpl;
    destruct u; simpl; auto using placeholders_numeral.
Qed.

Lemma placeholders_base_query (fs : gset FieldType) :
  placeholders (_build_base_query fs) = [].
Proof.
  unfold _build_base_query, query_parts.
  by destruct (decide (ORGANIZATION ∈ fs)), (decide (TECHNOLOGY ∈ fs)),
    (decide (JOB_FUNCTION ∈ fs)).
Qed.

(** X11. Whenever a statement is built, for a tree well-formed or not and
    for any limit, the placeholders of the whole statement, read from left
    to right, are [$1], ..., [$n], where [n] is the number of parameters
    returned with it; and this statement with these parameters is what the
    handler hands to the executor, once. *)
Theorem statement_placeholders (row : Type)
    (execute_query : string -> list string -> result (list row))
    (node : QueryNode) (limit : Z) (query : string) (params : list string) :
  build_query node limit = Return (query, params) ->
  placeholders query = ordinals 0 (length params) /\
  (search_jobs row execute_query node limit).1 = [(query, params)].
Proof.
  intros Hq. split; [|unfold search_jobs; by rewrite Hq].
  unfold build_query in Hq.
  destruct (_collect_required_fields node) as [fs|]; [|discriminate].
  simpl in Hq.
  destruct (_build_where_clause node 0) as [[[w ps] k']|] eqn:Hw;
    [|discriminate].
  simpl in Hq. injection Hq as <- <-.
  destruct (build_where_clause_numbered node 0 w ps k' Hw) as (_ & Hend & Hp).
  rewrite placeholders_app by reflexivity.
  rewrite placeholders_base_query.
  change (placeholders (w +:+ " LIMIT " +:+ str limit) =
          ordinals 0 (length ps)).
  rewrite placeholders_app by reflexivity.
  change (placeholders w ++ placeholders (str limit) = ordinals 0 (length ps)).
  rewrite placeholders_str, app_nil_r. by apply Hp.
Qed.

Lemma statement_placeholders_witness :
  build_query not_with_two_children (-1) =
    Return ("SELECT DISTINCT jp.id, jp.datetime_pulled FROM job_posts jp "
            +:+ "INNER JOIN organizations o ON jp.organization_id = o.id "
            +:+ "INNER JOIN job_posts_tech jpt ON jp.id = jpt.job_post_id "
            +:+ "INNER JOIN tech t ON jpt.tech_id = t.id "
            +:+ "WHERE NOT (t.name ILIKE $1) LIMIT -1",
            ["%python%"]) /\
  placeholders
    ("SELECT DISTINCT jp.id, jp.datetime_pulled FROM job_posts jp "
     +:+ "INNER JOIN organizations o ON jp.organization_id = o.id "
     +:+ "INNER JOIN job_posts_tech jpt ON jp.id = jpt.job_post_id "
     +:+ "INNER JOIN tech t ON jpt.tech_id = t.id "
     +:+ "WHERE NOT (t.name ILIKE $1) LIMIT -1") = ordinals 0 1.
Proof.
  assert (build_query not_with_two_children (-1) =
    Return ("SELECT DISTINCT jp.id, jp.datetime_pulled FROM job_posts jp "
            +:+ "INNER JOIN organizations o ON jp.organization_id = o.id "
            +:+ "INNER JOIN job_posts_tech jpt ON jp.id = jpt.job_post_id "
            +:+ "INNER JOIN tech t ON jpt.tech_id = t.id "
            +:+ "WHERE NOT (t.name ILIKE $1) LIMIT -1",
            ["%python%"])) as Hq by (by vm_compute).
  split; [exact Hq|].
  exact (proj1 (statement_placeholders unit (fun _ _ => Return [])
                  not_with_two_children (-1) _ _ Hq)).
Defined.

(** X12. Every answer with status 400 is accounted for. Either nothing was
    handed to the executor, and then the tree has a node with an unknown
    tag, which the detail names; or the built statement was handed to the
    executor, and the executor raised a [ValueError], whose message is the
    detail. *)
Theorem client_error_origin (row : Type)
    (execute_query : string -> list string -> result (list row))
    (node : QueryNode) (limit : Z)
    (calls : list (string * list string)) (detail : string) :
  search_jobs row execute_query node limit = (calls, HTTPException 400 detail) ->
  (calls = [] /\
   exists bad,
     occurs_in bad node /\
     type bad <> "condition" /\ type bad <> "operator" /\
     detail = "Unknown node type: " +:+ type bad) \/
  (exists query params,
     calls = [(query, params)] /\
     build_query node limit = Return (query, params) /\
     execute_query query params = Raise (ValueError detail)).
Proof.
  unfold search_jobs.
  destruct (build_query node limit) as [[query params]|e] eqn:Hq.
  - intros H. right. exists query, params.
    injection H as <- H. split; [reflexivity|]. split; [reflexivity|].
    destruct (execute_query query params) as [jobs|[]]; try discriminate H.
    by injection H as ->.
  - intros H. left.
    destruct e; try discriminate H. injection H as <- ->.
    split; [reflexivity|].
    unfold build_query in Hq.
    destruct (_collect_required_fields node) as [fs|e] eqn:Hfs.
    + simpl in Hq.
      destruct (_build_where_clause node 0) as [[[w ps] k']|e] eqn:Hw;
        [discriminate|].
      simpl in Hq. injection Hq as ->.
      by eapply value_error_origin.
    + simpl in Hq. injection Hq as ->.
      by destruct (collect_raise_origin node _ Hfs) as [(msg' & ?) _].
Qed.

Lemma client_error_origin_witness :
  search_jobs unit (fun _ _ => Return [tt])
    (operator_node AND [apple_query; mkQueryNode "range" None None None]) 10 =
    ([], HTTPException 400 "Unknown node type: range") /\
  ((([] : list (string * list string)) = [] /\
   exists bad,
     occurs_in bad
       (operator_node AND [apple_query; mkQueryNode "range" None None None]) /\
     type bad <> "condition" /\ type bad <> "operator" /\
     "Unknown node type: range" = "Unknown node type: " +:+ type bad) \/
  (exists query params,
     [] = [(query, params)] /\
     build_query
       (operator_node AND [apple_query; mkQueryNode "range" None None None])
       10 = Return (query, params) /\
     (fun _ _ => Return [tt]) query params =
       (Raise (ValueError "Unknown node type: range") : result (list unit)))).
Proof.
  split; [reflexivity|].
  exact (client_error_origin unit (fun _ _ => Return [tt])
           (operator_node AND [apple_query; mkQueryNode "range" None None None])
           10 [] "Unknown node type: range" eq_refl).
Defined.

End Statement.
